(** * express-jobly: the Jobs model (models/jobs.js) over a relational store

    The development embeds the five static methods of the [Jobs] class
    (create, findAll, get, update, remove) as computations in a state and
    error monad over a store.  Statement texts are kept as the strings the
    JavaScript builds, so that what the store receives can be read off and
    compared with the source line by line. *)

From Stdlib Require Import List String Ascii Bool Arith ZArith QArith Lia.
From Stdlib Require Import DecimalString Sorted.
Import ListNotations.

Local Close Scope Q_scope.
Local Open Scope list_scope.
Local Open Scope string_scope.

(* ------------------------------------------------------------------------- *)
(** ** JavaScript values *)
(* ------------------------------------------------------------------------- *)

(** Plain data as the model receives and returns it.  Numbers are exact
    rationals (salary and id are integers, equity is a decimal); an object
    is an association list in insertion order, which is the order
    [Object.keys] iterates. *)
#[local] Set Warnings "-register-all".
Inductive value : Type :=
| VUndef
| VNull
| VBool (b : bool)
| VNum (q : Q)
| VStr (s : string)
| VObj (fields : list (string * value)).

Definition row := list (string * value).

Module Obj.

(** [o.k] : a missing property reads as [undefined]. *)
Fixpoint get (k : string) (o : row) : value :=
  match o with
  | [] => VUndef
  | (k', v) :: o' => if String.eqb k k' then v else get k o'
  end.

Fixpoint has (k : string) (o : row) : bool :=
  match o with
  | [] => false
  | (k', _) :: o' => String.eqb k k' || has k o'
  end.

(** [delete o.k] *)
Fixpoint delete (k : string) (o : row) : row :=
  match o with
  | [] => []
  | (k', v) :: o' =>
      if String.eqb k k' then delete k o' else (k', v) :: delete k o'
  end.

(** [o.k = v] : an existing property keeps its place, a new one goes last. *)
Fixpoint set (k : string) (v : value) (o : row) : row :=
  match o with
  | [] => [(k, v)]
  | (k', v') :: o' =>
      if String.eqb k k' then (k', v) :: o' else (k', v') :: set k v o'
  end.

Definition keys (o : row) : list string := map fst o.
Definition values (o : row) : list value := map snd o.

End Obj.

(** [rows[0]] of a query result. *)
Definition first_row (rows : list row) : option row :=
  match rows with
  | [] => None
  | r :: _ => Some r
  end.

(** Decimal text of a length or of an identifier, as template literals and
    string concatenation print them. *)
Definition string_of_nat (n : nat) : string :=
  NilEmpty.string_of_uint (Nat.to_uint n).

Definition string_of_Z (z : Z) : string :=
  NilZero.string_of_int (Z.to_int z).

(** [Array.prototype.push] *)
Definition push {A} (l : list A) (x : A) : list A := (l ++ [x])%list.

(** [Array.prototype.join] *)
Fixpoint join (sep : string) (l : list string) : string :=
  match l with
  | [] => EmptyString
  | [s] => s
  | s :: l' => s ++ sep ++ join sep l'
  end.

(** An integer as a JavaScript number. *)
Definition num (z : Z) : value := VNum (inject_Z z).

(** The double quote and the line break of the statement templates. *)
Definition dq : string := String (ascii_of_nat 34) EmptyString.
Definition nl : string := String (ascii_of_nat 10) EmptyString.

(** A template literal that runs over several lines. *)
Definition lines (l : list string) : string := join nl l.

(* ------------------------------------------------------------------------- *)
(** ** Error taxonomy *)
(* ------------------------------------------------------------------------- *)

(** Modelled from the spec: expressError.js is not part of the sources at
    hand.  [ExpressError] carries a message and an HTTP status;
    [BadRequestError] and [NotFoundError] are its two named kinds.
    [StoreError] stands for a failure raised by the store itself, which the
    model lets through unchanged. *)
Inductive error : Type :=
| ExpressError (message : string) (code : Z)
| BadRequestError (message : string)
| NotFoundError (message : string)
| StoreError (message : string).

Definition status (e : error) : Z :=
  match e with
  | ExpressError _ c => c
  | BadRequestError _ => 400
  | NotFoundError _ => 404
  | StoreError _ => 500
  end.

Definition BadRequest (e : error) : Prop := status e = 400%Z.
Definition NotFound (e : error) : Prop := status e = 404%Z.

(* ------------------------------------------------------------------------- *)
(** ** The persisted schema *)
(* ------------------------------------------------------------------------- *)

(** jobs(id serial primary key, title text not null, salary integer,
         equity numeric, company_handle text not null
         references companies(handle)) *)
Record Job : Type := mkJob {
  job_id : Z;
  job_title : string;
  job_salary : option Z;
  job_equity : option Q;
  job_company_handle : string
}.

(** companies(handle text primary key, name text, description text,
              num_employees integer, logo_url text) *)
Record Company : Type := mkCompany {
  co_handle : string;
  co_name : option string;
  co_description : option string;
  co_num_employees : option Z;
  co_logo_url : option string
}.

(** The store: both tables, the serial counter of jobs.id, and the log of
    every statement sent to it, most recent last. *)
Record DB : Type := mkDB {
  jobs : list Job;
  companies : list Company;
  next_id : Z;
  log : list (string * list value)
}.

(* ------------------------------------------------------------------------- *)
(** ** State and error monad *)
(* ------------------------------------------------------------------------- *)

(** An async method either throws or returns, and may change the store on
    the way; the store is kept on both outcomes. *)
Definition M (A : Type) : Type := DB -> (error + A) * DB.

Definition ret {A} (a : A) : M A := fun db => (inr a, db).
Definition throw {A} (e : error) : M A := fun db => (inl e, db).
Definition bind {A B} (m : M A) (k : A -> M B) : M B :=
  fun db =>
    match m db with
    | (inl e, db') => (inl e, db')
    | (inr a, db') => k a db'
    end.

Declare Scope js_scope.
Delimit Scope js_scope with js.
Notation "'let*' x ':=' m 'in' k" := (bind m (fun x => k))
  (at level 10, x name, m at level 100, k at level 200) : js_scope.
Notation "m ';;' k" := (bind m (fun _ => k))
  (at level 100, k at level 200, right associativity) : js_scope.

(** [if (c) throw e;] *)
Definition throw_if (c : bool) (e : error) : M unit :=
  if c then throw e else ret tt.

(* ------------------------------------------------------------------------- *)
(** ** The store behind [db.query] *)
(* ------------------------------------------------------------------------- *)

(** Modelled from the spec: db.js (the PostgreSQL client behind [db.query])
    is not part of the sources at hand.  The store reads a statement text,
    binds the positional parameters $1, $2, ... and runs it against the two
    tables of the persisted schema.  Only the statement forms the model
    sends are understood: SELECT ... FROM ... [WHERE ...] [ORDER BY ...],
    INSERT INTO jobs ... RETURNING, UPDATE jobs SET ... WHERE ... RETURNING
    and DELETE FROM jobs WHERE ... RETURNING. *)
Module Sql.

(** *** Lexical structure *)

Inductive token : Type :=
| TWord (s : string)      (* bare word, folded to lower case *)
| TQuoted (s : string)    (* double-quoted identifier, case kept *)
| TParam (n : nat)        (* $n *)
| TNumber (n : nat)       (* integer literal *)
| TSym (s : string).      (* , ( ) = > >= *)

Definition is_space (c : ascii) : bool :=
  let n := nat_of_ascii c in
  (n =? 32)%nat || (n =? 10)%nat || (n =? 9)%nat || (n =? 13)%nat.

Definition is_digit (c : ascii) : bool :=
  let n := nat_of_ascii c in (48 <=? n)%nat && (n <=? 57)%nat.

Definition is_upper (c : ascii) : bool :=
  let n := nat_of_ascii c in (65 <=? n)%nat && (n <=? 90)%nat.

Definition is_lower (c : ascii) : bool :=
  let n := nat_of_ascii c in (97 <=? n)%nat && (n <=? 122)%nat.

Definition is_letter (c : ascii) : bool :=
  is_upper c || is_lower c || (nat_of_ascii c =? 95)%nat.

Definition lower (c : ascii) : ascii :=
  if is_upper c then ascii_of_nat (nat_of_ascii c + 32) else c.

Definition digit_val (c : ascii) : nat := nat_of_ascii c - 48.

Definition snoc (s : string) (c : ascii) : string :=
  s ++ String c EmptyString.

Inductive lexstate : Type :=
| LIdle
| LWord (acc : string)
| LQuote (acc : string)
| LParam (n : option nat)
| LNum (n : nat)
| LGt.

(** One character read with nothing pending. *)
Definition lex_idle (c : ascii) : option (list token * lexstate) :=
  if is_space c then Some ([], LIdle)
  else if is_letter c then Some ([], LWord (String (lower c) EmptyString))
  else if is_digit c then Some ([], LNum (digit_val c))
  else if Ascii.eqb c (ascii_of_nat 34) then Some ([], LQuote EmptyString)
  else if Ascii.eqb c "$" then Some ([], LParam None)
  else if Ascii.eqb c ">" then Some ([], LGt)
  else if Ascii.eqb c "," then Some ([TSym ","], LIdle)
  else if Ascii.eqb c "(" then Some ([TSym "("], LIdle)
  else if Ascii.eqb c ")" then Some ([TSym ")"], LIdle)
  else if Ascii.eqb c "=" then Some ([TSym "="], LIdle)
  else None.

Definition emit_then (t : token) (c : ascii)
  : option (list token * lexstate) :=
  match lex_idle c with
  | Some (ts, st) => Some (t :: ts, st)
  | None => None
  end.

Definition lex_step (st : lexstate) (c : ascii)
  : option (list token * lexstate) :=
  match st with
  | LIdle => lex_idle c
  | LWord acc =>
      if is_letter c || is_digit c then Some ([], LWord (snoc acc (lower c)))
      else emit_then (TWord acc) c
  | LQuote acc =>
      if Ascii.eqb c (ascii_of_nat 34) then Some ([TQuoted acc], LIdle)
      else Some ([], LQuote (snoc acc c))
  | LParam None =>
      if is_digit c then Some ([], LParam (Some (digit_val c))) else None
  | LParam (Some n) =>
      if is_digit c then Some ([], LParam (Some (10 * n + digit_val c)))
      else emit_then (TParam n) c
  | LNum n =>
      if is_digit c then Some ([], LNum (10 * n + digit_val c))
      else emit_then (TNumber n) c
  | LGt =>
      if Ascii.eqb c "=" then Some ([TSym ">="], LIdle)
      else emit_then (TSym ">") c
  end.

Definition lex_end (st : lexstate) : option (list token) :=
  match st with
  | LIdle => Some []
  | LWord acc => Some [TWord acc]
  | LQuote _ => None
  | LParam None => None
  | LParam (Some n) => Some [TParam n]
  | LNum n => Some [TNumber n]
  | LGt => Some [TSym ">"]
  end.

Fixpoint lex (s : string) (st : lexstate) : option (list token) :=
  match s with
  | EmptyString => lex_end st
  | String c s' =>
      match lex_step st c with
      | None => None
      | Some (ts, st') =>
          match lex s' st' with
          | None => None
          | Some ts' => Some (ts ++ ts')%list
          end
      end
  end.

Definition tokens (s : string) : option (list token) := lex s LIdle.

(** The numbers of the placeholders of a text, in order of appearance. *)
Fixpoint params_of (ts : list token) : list nat :=
  match ts with
  | [] => []
  | TParam n :: ts' => n :: params_of ts'
  | _ :: ts' => params_of ts'
  end.

Definition placeholders (s : string) : list nat :=
  match tokens s with
  | Some ts => params_of ts
  | None => []
  end.

(** *** Statements *)

Inductive operand : Type :=
| OParam (n : nat)
| OLit (n : nat).

Inductive cmpop : Type := OpEq | OpGe | OpGt | OpILike.

(** A select-list entry: the column read and the name it is returned under. *)
Definition item : Type := string * string.
Definition cond : Type := string * cmpop * operand.

Inductive stmt : Type :=
| Select (items : list item) (table : string) (cnd : list cond)
         (order : option string)
| Insert (table : string) (cols : list string) (vals : list operand)
         (returning : list item)
| Update (table : string) (sets : list (string * operand)) (cnd : list cond)
         (returning : list item)
| Delete (table : string) (cnd : list cond) (returning : list item).

Definition reserved : list string :=
  ["select"; "from"; "where"; "order"; "by"; "and"; "as"; "insert"; "into";
   "values"; "returning"; "update"; "set"; "delete"; "ilike"].

Definition is_kw (k : string) (t : token) : bool :=
  match t with
  | TWord w => String.eqb w k
  | _ => false
  end.

Definition is_sym (k : string) (t : token) : bool :=
  match t with
  | TSym w => String.eqb w k
  | _ => false
  end.

(** A name: a bare word that is not reserved, or a quoted identifier. *)
Definition ident_of (t : token) : option string :=
  match t with
  | TWord w => if existsb (String.eqb w) reserved then None else Some w
  | TQuoted q => Some q
  | _ => None
  end.

Definition parser (A : Type) : Type := list token -> option (A * list token).

Definition p_ident : parser string :=
  fun ts =>
    match ts with
    | t :: rest =>
        match ident_of t with
        | Some x => Some (x, rest)
        | None => None
        end
    | [] => None
    end.

Definition p_expect (test : token -> bool) : parser unit :=
  fun ts =>
    match ts with
    | t :: rest => if test t then Some (tt, rest) else None
    | [] => None
    end.

Definition p_then {A B} (p : parser A) (k : A -> parser B) : parser B :=
  fun ts =>
    match p ts with
    | Some (a, rest) => k a rest
    | None => None
    end.

Definition p_ret {A} (a : A) : parser A := fun ts => Some (a, ts).

(** [p] when the next token passes [test] (which is consumed), [d] otherwise. *)
Definition p_opt {A} (test : token -> bool) (p : parser A) (d : A)
  : parser A :=
  fun ts =>
    match ts with
    | t :: rest => if test t then p rest else Some (d, ts)
    | [] => Some (d, ts)
    end.

(** One or more [p] separated by [sep]; a separator must be followed by
    another [p].  The fuel bounds the number of elements. *)
Fixpoint sep_by {A} (p : parser A) (sep : token -> bool) (fuel : nat)
  : parser (list A) :=
  fun ts =>
    match fuel with
    | O => None
    | S fuel' =>
        match p ts with
        | None => None
        | Some (a, rest) =>
            match rest with
            | t :: rest' =>
                if sep t then
                  match sep_by p sep fuel' rest' with
                  | Some (l, r) => Some (a :: l, r)
                  | None => None
                  end
                else Some ([a], rest)
            | [] => Some ([a], [])
            end
        end
    end.

(** column [AS name] *)
Definition p_item : parser item :=
  p_then p_ident (fun c =>
  p_then (p_opt (is_kw "as") p_ident c) (fun a =>
  p_ret (c, a))).

Definition p_operand : parser operand :=
  fun ts =>
    match ts with
    | TParam n :: rest => Some (OParam n, rest)
    | TNumber n :: rest => Some (OLit n, rest)
    | _ => None
    end.

Definition p_cmpop : parser cmpop :=
  fun ts =>
    match ts with
    | t :: rest =>
        if is_sym "=" t then Some (OpEq, rest)
        else if is_sym ">=" t then Some (OpGe, rest)
        else if is_sym ">" t then Some (OpGt, rest)
        else if is_kw "ilike" t then Some (OpILike, rest)
        else None
    | [] => None
    end.

Definition p_cond : parser cond :=
  p_then p_ident (fun c =>
  p_then p_cmpop (fun o =>
  p_then p_operand (fun a =>
  p_ret (c, o, a)))).

Definition p_set : parser (string * operand) :=
  p_then p_ident (fun c =>
  p_then (p_expect (is_sym "=")) (fun _ =>
  p_then p_operand (fun a =>
  p_ret (c, a)))).

Definition p_items (n : nat) : parser (list item) :=
  sep_by p_item (is_sym ",") n.

Definition p_where (n : nat) : parser (list cond) :=
  p_opt (is_kw "where") (sep_by p_cond (is_kw "and") n) [].

Definition p_returning (n : nat) : parser (list item) :=
  p_opt (is_kw "returning") (p_items n) [].

Definition p_order : parser (option string) :=
  p_opt (is_kw "order")
    (p_then (p_expect (is_kw "by")) (fun _ =>
     p_then p_ident (fun c => p_ret (Some c))))
    None.

Definition p_select (n : nat) : parser stmt :=
  p_then (p_items n) (fun its =>
  p_then (p_expect (is_kw "from")) (fun _ =>
  p_then p_ident (fun tb =>
  p_then (p_where n) (fun w =>
  p_then p_order (fun o =>
  p_ret (Select its tb w o)))))).

Definition p_insert (n : nat) : parser stmt :=
  p_then (p_expect (is_kw "into")) (fun _ =>
  p_then p_ident (fun tb =>
  p_then (p_expect (is_sym "(")) (fun _ =>
  p_then (sep_by p_ident (is_sym ",") n) (fun cs =>
  p_then (p_expect (is_sym ")")) (fun _ =>
  p_then (p_expect (is_kw "values")) (fun _ =>
  p_then (p_expect (is_sym "(")) (fun _ =>
  p_then (sep_by p_operand (is_sym ",") n) (fun vs =>
  p_then (p_expect (is_sym ")")) (fun _ =>
  p_then (p_returning n) (fun r =>
  p_ret (Insert tb cs vs r))))))))))).

Definition p_update (n : nat) : parser stmt :=
  p_then p_ident (fun tb =>
  p_then (p_expect (is_kw "set")) (fun _ =>
  p_then (sep_by p_set (is_sym ",") n) (fun ss =>
  p_then (p_where n) (fun w =>
  p_then (p_returning n) (fun r =>
  p_ret (Update tb ss w r)))))).

Definition p_delete (n : nat) : parser stmt :=
  p_then (p_expect (is_kw "from")) (fun _ =>
  p_then p_ident (fun tb =>
  p_then (p_where n) (fun w =>
  p_then (p_returning n) (fun r =>
  p_ret (Delete tb w r))))).

(** A whole statement: nothing may follow it. *)
Definition parse (ts : list token) : option stmt :=
  let n := List.length ts in
  match ts with
  | [] => None
  | t :: rest =>
      let p :=
        if is_kw "select" t then p_select n
        else if is_kw "insert" t then p_insert n
        else if is_kw "update" t then p_update n
        else if is_kw "delete" t then p_delete n
        else fun _ => None in
      match p rest with
      | Some (st, []) => Some st
      | _ => None
      end
  end.

Definition parse_text (s : string) : option stmt :=
  match tokens s with
  | Some ts => parse ts
  | None => None
  end.

(** *** Rows of the two tables *)

Definition opt_int (o : option Z) : value :=
  match o with
  | Some z => num z
  | None => VNull
  end.

Definition opt_dec (o : option Q) : value :=
  match o with
  | Some q => VNum q
  | None => VNull
  end.

Definition opt_text (o : option string) : value :=
  match o with
  | Some s => VStr s
  | None => VNull
  end.

Definition job_tuple (j : Job) : row :=
  [("id", num (job_id j));
   ("title", VStr (job_title j));
   ("salary", opt_int (job_salary j));
   ("equity", opt_dec (job_equity j));
   ("company_handle", VStr (job_company_handle j))].

Definition company_tuple (c : Company) : row :=
  [("handle", VStr (co_handle c));
   ("name", opt_text (co_name c));
   ("description", opt_text (co_description c));
   ("num_employees", opt_int (co_num_employees c));
   ("logo_url", opt_text (co_logo_url c))].

Definition job_columns : list string :=
  ["id"; "title"; "salary"; "equity"; "company_handle"].

Definition company_columns : list string :=
  ["handle"; "name"; "description"; "num_employees"; "logo_url"].

Definition mem (x : string) (l : list string) : bool :=
  existsb (String.eqb x) l.

(** The integer a number denotes, when it is one. *)
Definition as_int (v : value) : option Z :=
  match v with
  | VNum q =>
      if (Qnum q mod Zpos (Qden q) =? 0)%Z
      then Some (Qnum q / Zpos (Qden q))%Z
      else None
  | _ => None
  end.

(** A tuple read back as a jobs row, with the column types and the NOT NULL
    constraints of the schema. *)
Definition job_of_tuple (t : row) : string + Job :=
  match as_int (Obj.get "id" t) with
  | None => inl "invalid value for column id"
  | Some i =>
  match Obj.get "title" t with
  | VStr ti =>
      match (match Obj.get "salary" t with
             | VNull => Some None
             | v => option_map Some (as_int v)
             end) with
      | None => inl "invalid value for column salary"
      | Some sa =>
      match (match Obj.get "equity" t with
             | VNull => Some None
             | VNum q => Some (Some q)
             | _ => None
             end) with
      | None => inl "invalid value for column equity"
      | Some eq =>
      match Obj.get "company_handle" t with
      | VStr h => inr (mkJob i ti sa eq h)
      | VNull => inl "null value in column company_handle"
      | _ => inl "invalid value for column company_handle"
      end end end
  | VNull => inl "null value in column title"
  | _ => inl "invalid value for column title"
  end end.

(** *** Conditions *)

Definition char_eq_ci (a b : ascii) : bool := Ascii.eqb (lower a) (lower b).

(** ILIKE: [%] stands for any run of characters, [_] for any one character,
    letters compare without case. *)
Fixpoint like (pat : string) : string -> bool :=
  match pat with
  | EmptyString => fun s => match s with EmptyString => true | _ => false end
  | String p pat' =>
      if Ascii.eqb p "%" then
        fix skip (s : string) : bool :=
          like pat' s ||
          match s with
          | EmptyString => false
          | String _ s' => skip s'
          end
      else
        fun s =>
          match s with
          | EmptyString => false
          | String c s' =>
              (Ascii.eqb p "_" || char_eq_ci p c) && like pat' s'
          end
  end.

Definition cmp (op : cmpop) (v a : value) : bool :=
  match op, v, a with
  | OpEq, VNum x, VNum y => Qeq_bool x y
  | OpEq, VStr x, VStr y => String.eqb x y
  | OpGe, VNum x, VNum y => Qle_bool y x
  | OpGe, VStr x, VStr y => String.leb y x
  | OpGt, VNum x, VNum y => negb (Qle_bool x y)
  | OpGt, VStr x, VStr y => String.ltb y x
  | OpILike, VStr x, VStr y => like y x
  | _, _, _ => false
  end.

(** The value bound to an operand; [undefined] is sent as NULL. *)
Definition arg_value (params : list value) (a : operand) : option value :=
  match a with
  | OLit n => Some (num (Z.of_nat n))
  | OParam O => None
  | OParam (S k) =>
      match nth_error params k with
      | Some VUndef => Some VNull
      | Some v => Some v
      | None => None
      end
  end.

Fixpoint bind_conds (cols : list string) (params : list value)
  (cs : list cond) : option (list (string * cmpop * value)) :=
  match cs with
  | [] => Some []
  | (c, op, a) :: cs' =>
      if mem c cols then
        match arg_value params a, bind_conds cols params cs' with
        | Some v, Some l => Some ((c, op, v) :: l)
        | _, _ => None
        end
      else None
  end.

Fixpoint bind_sets (cols : list string) (params : list value)
  (ss : list (string * operand)) : option (list (string * value)) :=
  match ss with
  | [] => Some []
  | (c, a) :: ss' =>
      if mem c cols then
        match arg_value params a, bind_sets cols params ss' with
        | Some v, Some l => Some ((c, v) :: l)
        | _, _ => None
        end
      else None
  end.

Definition holds (cs : list (string * cmpop * value)) (t : row) : bool :=
  forallb (fun '(c, op, v) => cmp op (Obj.get c t) v) cs.

Definition items_ok (cols : list string) (its : list item) : bool :=
  forallb (fun '(c, _) => mem c cols) its.

Definition project (its : list item) (t : row) : row :=
  map (fun '(c, a) => (a, Obj.get c t)) its.

(** *** ORDER BY *)

(** Ascending order of one column: numbers by value, text by character
    code, NULL last. *)
Definition value_leb (a b : value) : bool :=
  match a, b with
  | VNum x, VNum y => Qle_bool x y
  | VStr x, VStr y => String.leb x y
  | VNull, VNull => true
  | VNull, _ => false
  | _, _ => true
  end.

Fixpoint insert_by (c : string) (t : row) (l : list row) : list row :=
  match l with
  | [] => [t]
  | u :: l' =>
      if value_leb (Obj.get c t) (Obj.get c u) then t :: l
      else u :: insert_by c t l'
  end.

Fixpoint sort_by (c : string) (l : list row) : list row :=
  match l with
  | [] => []
  | t :: l' => insert_by c t (sort_by c l')
  end.

(** *** Running a statement *)

Definition table (db : DB) (tb : string)
  : option (list string * list row) :=
  if String.eqb tb "jobs" then
    Some (job_columns, map job_tuple (jobs db))
  else if String.eqb tb "companies" then
    Some (company_columns, map company_tuple (companies db))
  else None.

Definition order_ok (cols : list string) (o : option string) : bool :=
  match o with
  | Some c => mem c cols
  | None => true
  end.

Definition ordered (o : option string) (l : list row) : list row :=
  match o with
  | Some c => sort_by c l
  | None => l
  end.

Definition run_select (its : list item) (tb : string) (cs : list cond)
  (o : option string) (params : list value) (db : DB)
  : string + list row :=
  match table db tb with
  | None => inl "relation does not exist"
  | Some (cols, rows) =>
      if items_ok cols its && order_ok cols o then
        match bind_conds cols params cs with
        | Some bc =>
            inr (map (project its) (ordered o (filter (holds bc) rows)))
        | None => inl "column or parameter does not exist"
        end
      else inl "column does not exist"
  end.

Definition has_company (db : DB) (h : string) : bool :=
  existsb (fun c => String.eqb (co_handle c) h) (companies db).

Definition has_job (js : list Job) (i : Z) : bool :=
  existsb (fun j => (job_id j =? i)%Z) js.

Fixpoint distinct_ids (js : list Job) : bool :=
  match js with
  | [] => true
  | j :: js' => negb (has_job js' (job_id j)) && distinct_ids js'
  end.

Definition assign (sets : list (string * value)) (t : row) : row :=
  fold_left (fun t '(c, v) => Obj.set c v t) sets t.

Definition run_insert (cols : list string) (vals : list operand)
  (ret : list item) (params : list value) (db : DB)
  : string + (list row * DB) :=
  if negb (List.length cols =? List.length vals)%nat then
    inl "INSERT has a different number of columns and values"
  else if negb (items_ok job_columns ret) then inl "column does not exist"
  else
    match bind_sets job_columns params (combine cols vals) with
    | None => inl "column or parameter does not exist"
    | Some sets =>
        let fresh :=
          [("id", num (next_id db)); ("title", VNull); ("salary", VNull);
           ("equity", VNull); ("company_handle", VNull)] in
        match job_of_tuple (assign sets fresh) with
        | inl e => inl e
        | inr j =>
            if negb (has_company db (job_company_handle j)) then
              inl "violates foreign key constraint"
            else if has_job (jobs db) (job_id j) then
              inl "duplicate key value violates unique constraint"
            else
              inr ([project ret (job_tuple j)],
                   mkDB (push (jobs db) j) (companies db)
                        (if mem "id" cols then next_id db
                         else (next_id db + 1)%Z)
                        (log db))
        end
    end.

(** The rows of [js] with the matching ones rewritten: the whole table after
    the update, and the rewritten rows alone. *)
Fixpoint rewrite_jobs (bc : list (string * cmpop * value))
  (sets : list (string * value)) (js : list Job)
  : string + (list Job * list Job) :=
  match js with
  | [] => inr ([], [])
  | j :: js' =>
      match rewrite_jobs bc sets js' with
      | inl e => inl e
      | inr (all, hit) =>
          if holds bc (job_tuple j) then
            match job_of_tuple (assign sets (job_tuple j)) with
            | inl e => inl e
            | inr j' => inr (j' :: all, j' :: hit)
            end
          else inr (j :: all, hit)
      end
  end.

Definition run_update (sets : list (string * operand)) (cs : list cond)
  (ret : list item) (params : list value) (db : DB)
  : string + (list row * DB) :=
  if negb (items_ok job_columns ret) then inl "column does not exist"
  else
    match bind_sets job_columns params sets,
          bind_conds job_columns params cs with
    | Some bs, Some bc =>
        match rewrite_jobs bc bs (jobs db) with
        | inl e => inl e
        | inr (all, hit) =>
            if negb (forallb (fun j => has_company db (job_company_handle j))
                       hit) then
              inl "violates foreign key constraint"
            else if mem "id" (map fst bs) && negb (distinct_ids all) then
              inl "duplicate key value violates unique constraint"
            else
              inr (map (fun j => project ret (job_tuple j)) hit,
                   mkDB all (companies db) (next_id db) (log db))
        end
    | _, _ => inl "column or parameter does not exist"
    end.

Definition run_delete (cs : list cond) (ret : list item)
  (params : list value) (db : DB) : string + (list row * DB) :=
  if negb (items_ok job_columns ret) then inl "column does not exist"
  else
    match bind_conds job_columns params cs with
    | Some bc =>
        let gone := filter (fun j => holds bc (job_tuple j)) (jobs db) in
        let kept := filter (fun j => negb (holds bc (job_tuple j))) (jobs db) in
        inr (map (fun j => project ret (job_tuple j)) gone,
             mkDB kept (companies db) (next_id db) (log db))
    | None => inl "column or parameter does not exist"
    end.

Definition run (st : stmt) (params : list value) (db : DB)
  : string + (list row * DB) :=
  match st with
  | Select its tb cs o =>
      match run_select its tb cs o params db with
      | inl e => inl e
      | inr rows => inr (rows, db)
      end
  | Insert tb cols vals ret =>
      if String.eqb tb "jobs" then run_insert cols vals ret params db
      else inl "relation is read-only"
  | Update tb sets cs ret =>
      if String.eqb tb "jobs" then run_update sets cs ret params db
      else inl "relation is read-only"
  | Delete tb cs ret =>
      if String.eqb tb "jobs" then run_delete cs ret params db
      else inl "relation is read-only"
  end.

End Sql.

Module db.

(** [db.query(text, params)]: the statement is recorded as sent, then
    parsed and run.  A text the store cannot parse, and a statement it
    refuses, leave the tables as they were and surface as a store error. *)
Definition sent (text : string) (params : list value) (d : DB) : DB :=
  mkDB (jobs d) (companies d) (next_id d) (push (log d) (text, params)).

Definition query (text : string) (params : list value) : M (list row) :=
  fun d =>
    let d1 := sent text params d in
    match Sql.parse_text text with
    | None => (inl (StoreError "syntax error"), d1)
    | Some st =>
        match Sql.run st params d1 with
        | inl e => (inl (StoreError e), d1)
        | inr (rows, d2) => (inr rows, d2)
        end
    end.

End db.

(* ------------------------------------------------------------------------- *)
(** ** helpers/sql.js *)
(* ------------------------------------------------------------------------- *)

(** The storage name of a field: the entry of the translation table when
    there is one, the field name itself otherwise. *)
Fixpoint translate (jsToSql : list (string * string)) (k : string) : string :=
  match jsToSql with
  | [] => k
  | (k', c) :: rest => if String.eqb k k' then c else translate rest k
  end.

(** [keys.map((colName, idx) => ...)] with the index counted from [idx]. *)
Fixpoint assignments (jsToSql : list (string * string)) (idx : nat)
  (keys : list string) : list string :=
  match keys with
  | [] => []
  | k :: keys' =>
      (translate jsToSql k ++ " = $" ++ string_of_nat (idx + 1))
        :: assignments jsToSql (idx + 1) keys'
  end.

(** Modelled from the spec: helpers/sql.js (sqlForPartialUpdate) is not
    part of the sources at hand.  An empty input fails with BadRequest
    ("no data"); otherwise every entry gives one [column = placeholder]
    assignment, numbered from 1 in the order of the keys, and the values
    follow in the same order.  The translation table is injectable and
    names left out of it are kept as they are. *)
Definition sqlForPartialUpdate (dataToUpdate : row)
  (jsToSql : list (string * string)) : error + (string * list value) :=
  let keys := Obj.keys dataToUpdate in
  if (List.length keys =? 0)%nat then inl (BadRequestError "No data")
  else inr (join ", " (assignments jsToSql 0 keys), Obj.values dataToUpdate).

(* ------------------------------------------------------------------------- *)
(** ** models/jobs.js *)
(* ------------------------------------------------------------------------- *)

(** The search object of [findAll]: each of the three fields may be left
    out. *)
Record SearchFilters : Type := mkFilters {
  title : option string;
  minSalary : option Q;
  hasEquity : option bool
}.

Module Jobs.

Local Open Scope js_scope.

(** *** create *)

Definition create_sql : string :=
  lines
    ["INSERT INTO jobs";
     "           (title, salary, equity, company_handle)";
     "           VALUES ($1, $2, $3, $4)";
     "           RETURNING id, title, salary, equity, company_handle AS "
       ++ dq ++ "companyHandle" ++ dq].

(** [result.rows[0]] as a value: the row, or [undefined]. *)
Definition row0 (rows : list row) : value :=
  match first_row rows with
  | Some r => VObj r
  | None => VUndef
  end.

Definition create (data : row) : M value :=
  let* result :=
    db.query create_sql
      [Obj.get "title" data; Obj.get "salary" data; Obj.get "equity" data;
       Obj.get "companyHandle" data] in
  let job := row0 result in
  ret job.

(** *** findAll *)

Definition findAll_select : string :=
  lines
    [EmptyString; (* the template opens with a line break *)
     "     SELECT title, ";
     "            salary, ";
     "            equity, ";
     "            company_handle AS " ++ dq ++ "companyHandle" ++ dq ++ ",";
     "     FROM jobs"].

(** [minSalary < 0], false when [minSalary] is undefined. *)
Definition negative (m : option Q) : bool :=
  match m with
  | Some q => negb (Qle_bool 0 q)
  | None => false
  end.

(** The three conditional blocks that fill [queryVal] and [whereExp]. *)
Definition conditions (f : SearchFilters) : list value * list string :=
  let queryVal : list value := [] in
  let whereExp : list string := [] in
  let '(queryVal, whereExp) :=
    match minSalary f with
    | Some m =>
        let queryVal := push queryVal (VNum m) in
        (queryVal,
         push whereExp
           ("salary >= $" ++ string_of_nat (List.length queryVal)))
    | None => (queryVal, whereExp)
    end in
  let '(queryVal, whereExp) :=
    match hasEquity f with
    | Some true => (queryVal, push whereExp "equity > 0")
    | _ => (queryVal, whereExp)
    end in
  let '(queryVal, whereExp) :=
    match title f with
    | Some t =>
        let queryVal := push queryVal (VStr ("%" ++ t ++ "%")) in
        (queryVal,
         push whereExp
           ("title ILIKE $" ++ string_of_nat (List.length queryVal)))
    | None => (queryVal, whereExp)
    end in
  (queryVal, whereExp).

(** The WHERE clause appended to the statement, empty without conditions. *)
Definition where_clause (whereExp : list string) : string :=
  if (0 <? List.length whereExp)%nat
  then " WHERE " ++ join " AND " whereExp
  else EmptyString.

Definition findAll (searchFilters : SearchFilters) : M (list row) :=
  throw_if (negative (minSalary searchFilters))
    (ExpressError "Invalid Constraints" 400) ;;
  let '(queryVal, whereExp) := conditions searchFilters in
  let query := findAll_select ++ where_clause whereExp in
  let query := query ++ " ORDER BY title" in
  let* jobRes := db.query query queryVal in
  ret jobRes.

(** *** get *)

Definition get_job_sql : string :=
  lines
    ["SELECT id,";
     "        title, ";
     "        salary, ";
     "        equity, ";
     "        company_handle AS " ++ dq ++ "companyHandle" ++ dq;
     "             FROM jobs";
     "             WHERE id = $1"].

Definition get_company_sql : string :=
  lines
    ["SELECT handle,";
     "                  name,";
     "                  description,";
     "                  num_employees AS " ++ dq ++ "numEmployees" ++ dq ++ ",";
     "                  logo_url AS " ++ dq ++ "logoUrl" ++ dq;
     "           FROM companies";
     "           WHERE handle = $1"].

Definition get (id : Z) : M value :=
  let* jobRes := db.query get_job_sql [num id] in
  match first_row jobRes with
  | None => throw (NotFoundError ("No job: " ++ string_of_Z id))
  | Some job =>
      let* companyRes :=
        db.query get_company_sql [Obj.get "companyHandle" job] in
      let job := Obj.delete "companyHandle" job in
      let job := Obj.set "company" (row0 companyRes) job in
      ret (VObj job)
  end.

(** *** update *)

Definition update_sql (setCols idVarIdx : string) : string :=
  lines
    ["UPDATE jobs ";
     "                      SET " ++ setCols ++ " ";
     "                      WHERE id = " ++ idVarIdx ++ " ";
     "                      RETURNING id, ";
     "                           title, ";
     "                           salary, ";
     "                           equity, ";
     "                           company_handle AS companyHandle"].

Definition update (id : Z) (data : row) : M value :=
  match sqlForPartialUpdate data [] with
  | inl e => throw e
  | inr (setCols, values) =>
      let idVarIdx := "$" ++ string_of_nat (List.length values + 1) in
      let querySql := update_sql setCols idVarIdx in
      let* result := db.query querySql (push values (num id)) in
      match first_row result with
      | None => throw (NotFoundError ("No company: " ++ string_of_Z id))
      | Some job => ret (VObj job)
      end
  end.

(** *** remove *)

Definition remove_sql : string :=
  lines
    ["DELETE";
     "           FROM jobs";
     "           WHERE id = $1";
     "           RETURNING id"].

Definition remove (id : Z) : M unit :=
  let* result := db.query remove_sql [num id] in
  match first_row result with
  | None => throw (NotFoundError ("No job: " ++ string_of_Z id))
  | Some _ => ret tt
  end.

End Jobs.

(* ------------------------------------------------------------------------- *)
(** ** Vocabulary of the properties *)
(* ------------------------------------------------------------------------- *)

(** The first jobs row with a given id, and the first companies row with a
    given handle. *)
Definition find_job (id : Z) (js : list Job) : option Job :=
  find (fun j => (job_id j =? id)%Z) js.

Definition find_company (h : string) (cs : list Company) : option Company :=
  find (fun c => String.eqb (co_handle c) h) cs.

(** A Job as [create] and the first lookup of [get] return it. *)
Definition job_object (j : Job) : row :=
  [("id", num (job_id j));
   ("title", VStr (job_title j));
   ("salary", Sql.opt_int (job_salary j));
   ("equity", Sql.opt_dec (job_equity j));
   ("companyHandle", VStr (job_company_handle j))].

(** A Company as the second lookup of [get] returns it. *)
Definition company_object (c : Company) : row :=
  [("handle", VStr (co_handle c));
   ("name", Sql.opt_text (co_name c));
   ("description", Sql.opt_text (co_description c));
   ("numEmployees", Sql.opt_int (co_num_employees c));
   ("logoUrl", Sql.opt_text (co_logo_url c))].

(** The value [get] returns for a job row and the outcome of the company
    lookup: the scalar fields, then [company]. *)
Definition enriched (j : Job) (company : value) : row :=
  [("id", num (job_id j));
   ("title", VStr (job_title j));
   ("salary", Sql.opt_int (job_salary j));
   ("equity", Sql.opt_dec (job_equity j));
   ("company", company)].

(** The store after the two lookups of [get]: the tables as they were, both
    statements logged. *)
Definition after_get (id : Z) (h : string) (d : DB) : DB :=
  db.sent Jobs.get_company_sql [VStr h] (db.sent Jobs.get_job_sql [num id] d).

(** The store after [remove id]: the rows with that id are gone and the
    DELETE is logged. *)
Definition after_remove (id : Z) (d : DB) : DB :=
  mkDB (filter (fun j => negb (job_id j =? id)%Z) (jobs d))
       (companies d) (next_id d)
       (push (log d) (Jobs.remove_sql, [num id])).

(** The statement text [findAll] sends for a search object. *)
Definition findAll_text (f : SearchFilters) : string :=
  (Jobs.findAll_select ++ Jobs.where_clause (snd (Jobs.conditions f)))
  ++ " ORDER BY title".

(** How many of the fields that bind a parameter are present. *)
Definition present {A} (o : option A) : nat :=
  match o with
  | Some _ => 1
  | None => 0
  end.

(** The reading of "each present condition contributes exactly one query
    parameter": as many parameters as conditions. *)
Definition one_parameter_per_condition (f : SearchFilters) : Prop :=
  List.length (fst (Jobs.conditions f)) = List.length (snd (Jobs.conditions f)).

(** The payload of [create]: title, salary, equity and company handle. *)
Definition new_job_data (t : string) (salary equity : value) (h : string)
  : row :=
  [("title", VStr t); ("salary", salary); ("equity", equity);
   ("companyHandle", VStr h)].

(** The parameters [create] binds, read off the payload. *)
Definition create_params (data : row) : list value :=
  [Obj.get "title" data; Obj.get "salary" data; Obj.get "equity" data;
   Obj.get "companyHandle" data].

(** The store after a successful [create]: the new row is last, the serial
    has advanced and the INSERT is logged. *)
Definition after_create (d : DB) (j : Job) (data : row) : DB :=
  mkDB (push (jobs d) j) (companies d) (next_id d + 1)%Z
       (push (log d) (Jobs.create_sql, create_params data)).

(** The statement text [update] sends for a patch. *)
Definition update_text (data : row) : string :=
  Jobs.update_sql
    (join ", " (assignments [] 0 (Obj.keys data)))
    ("$" ++ string_of_nat (List.length (Obj.values data) + 1)).

(** The select list and the ordering of [findAll] with the comma before
    FROM left out, used to show what the store does with such a text. *)
Definition select_by_title : string :=
  "SELECT title, salary, equity, company_handle AS "
  ++ dq ++ "companyHandle" ++ dq ++ " FROM jobs ORDER BY title".

(** Ascending by title, on returned rows. *)
Definition title_le (a b : row) : Prop :=
  Sql.value_leb (Obj.get "title" a) (Obj.get "title" b) = true.

(** A jobs row with its salary replaced. *)
Definition set_salary (s : Z) (j : Job) : Job :=
  mkJob (job_id j) (job_title j) (Some s) (job_equity j)
        (job_company_handle j).

(** A Job as the RETURNING clause of [update] names its columns. *)
Definition updated_object (j : Job) : row :=
  [("id", num (job_id j));
   ("title", VStr (job_title j));
   ("salary", Sql.opt_int (job_salary j));
   ("equity", Sql.opt_dec (job_equity j));
   ("companyhandle", VStr (job_company_handle j))].

(** Referential integrity of the store: every job names an existing
    company. *)
Definition referential (d : DB) : bool :=
  forallb (fun j => Sql.has_company d (job_company_handle j)) (jobs d).

(** The store after [update id {salary: s}]. *)
Definition after_update_salary (id s : Z) (d : DB) : DB :=
  mkDB (map (fun j => if (job_id j =? id)%Z then set_salary s j else j)
          (jobs d))
       (companies d) (next_id d)
       (push (log d)
          (update_text [("salary", num s)], [num s; num id])).

(** The tables and the serial of two stores agree (their logs may differ). *)
Definition same_tables (d d' : DB) : Prop :=
  jobs d' = jobs d /\ companies d' = companies d /\ next_id d' = next_id d.

(** Integrity of the store: the primary key of jobs is unique and every job
    names an existing company. *)
Definition consistent (d : DB) : Prop :=
  Sql.distinct_ids (jobs d) = true /\ referential d = true.

(** A parameter as the store receives it: [undefined] is sent as NULL. *)
Definition as_sent (v : value) : value :=
  match v with
  | VUndef => VNull
  | _ => v
  end.

(** A [create] payload in which salary and equity are optional: a field
    that is not given is left out of the object. *)
Definition payload (t : string) (salary : option Z) (equity : option Q)
  (h : string) : row :=
  ([("title", VStr t)]
   ++ match salary with Some s => [("salary", num s)] | None => [] end
   ++ match equity with Some e => [("equity", VNum e)] | None => [] end
   ++ [("companyHandle", VStr h)])%list.

(** A small store used for concrete runs: one company, two jobs. *)
Definition acme : Company :=
  mkCompany "acme" (Some "Acme Corp") None (Some 10%Z) None.

Definition backend : Job :=
  mkJob 1 "Backend Engineer" (Some 120000%Z) (Some (1 # 100)%Q) "acme".

Definition analyst : Job := mkJob 2 "Analyst" None None "acme".

Definition sample_db : DB := mkDB [backend; analyst] [acme] 3 [].

(** The same jobs with the companies table left empty, as a reader racing
    with a writer may see it between the two lookups of [get]. *)
Definition orphan_db : DB := mkDB [backend; analyst] [] 3 [].

(* ------------------------------------------------------------------------- *)
(** ** The store *)
(* ------------------------------------------------------------------------- *)

Section StoreFacts.

Lemma Qeq_bool_inject_Z (a b : Z) :
  Qeq_bool (inject_Z a) (inject_Z b) = (a =? b)%Z.
Proof.
  unfold Qeq_bool, inject_Z; simpl. now rewrite !Z.mul_1_r.
Qed.

Lemma holds_id (id : Z) (j : Job) :
  Sql.holds [("id", Sql.OpEq, num id)] (Sql.job_tuple j) = (job_id j =? id)%Z.
Proof.
  unfold Sql.holds; cbn. now rewrite Qeq_bool_inject_Z, andb_true_r.
Qed.

Lemma holds_handle (h : string) (c : Company) :
  Sql.holds [("handle", Sql.OpEq, VStr h)] (Sql.company_tuple c)
  = String.eqb (co_handle c) h.
Proof.
  unfold Sql.holds; cbn. now rewrite andb_true_r.
Qed.

(** The first row of a filtered, mapped table is the image of the first
    element that passes the filter. *)
Lemma first_row_filter {A} (f : A -> row) (g : row -> row)
  (p : row -> bool) (l : list A) :
  first_row (map g (filter p (map f l)))
  = option_map (fun a => g (f a)) (find (fun a => p (f a)) l).
Proof.
  induction l as [|a l IH]; simpl; [reflexivity|].
  destruct (p (f a)); simpl; [reflexivity | exact IH].
Qed.

Lemma find_agree {A} (p q : A -> bool) (l : list A) :
  (forall a, p a = q a) -> find p l = find q l.
Proof.
  intros E; induction l as [|a l IH]; simpl; [reflexivity|].
  now rewrite E, IH.
Qed.

Lemma parse_get_job :
  Sql.parse_text Jobs.get_job_sql
  = Some (Sql.Select
            [("id", "id"); ("title", "title"); ("salary", "salary");
             ("equity", "equity"); ("company_handle", "companyHandle")]
            "jobs" [("id", Sql.OpEq, Sql.OParam 1)] None).
Proof. vm_compute. reflexivity. Qed.

Lemma parse_get_company :
  Sql.parse_text Jobs.get_company_sql
  = Some (Sql.Select
            [("handle", "handle"); ("name", "name");
             ("description", "description");
             ("num_employees", "numEmployees"); ("logo_url", "logoUrl")]
            "companies" [("handle", Sql.OpEq, Sql.OParam 1)] None).
Proof. vm_compute. reflexivity. Qed.

Lemma parse_remove :
  Sql.parse_text Jobs.remove_sql
  = Some (Sql.Delete "jobs" [("id", Sql.OpEq, Sql.OParam 1)] [("id", "id")]).
Proof. vm_compute. reflexivity. Qed.

Lemma parse_create :
  Sql.parse_text Jobs.create_sql
  = Some (Sql.Insert "jobs" ["title"; "salary"; "equity"; "company_handle"]
            [Sql.OParam 1; Sql.OParam 2; Sql.OParam 3; Sql.OParam 4]
            [("id", "id"); ("title", "title"); ("salary", "salary");
             ("equity", "equity"); ("company_handle", "companyHandle")]).
Proof. vm_compute. reflexivity. Qed.

(** The first lookup of [get]: the jobs row with that id, if any. *)
Lemma query_get_job (id : Z) (d : DB) :
  exists rows,
    db.query Jobs.get_job_sql [num id] d
    = (inr rows, db.sent Jobs.get_job_sql [num id] d)
    /\ first_row rows = option_map job_object (find_job id (jobs d)).
Proof.
  unfold db.query. rewrite parse_get_job.
  eexists. split; [reflexivity|].
  cbn [Sql.ordered]. rewrite first_row_filter.
  unfold find_job.
  rewrite (find_agree _ (fun j => (job_id j =? id)%Z)); [reflexivity|].
  intros j. apply holds_id.
Qed.

Lemma value_leb_total (a b : value) :
  Sql.value_leb a b = true \/ Sql.value_leb b a = true.
Proof.
  destruct a, b; cbn; auto.
  - destruct (Qle_bool q q0) eqn:E; [now left|right].
    apply Qle_bool_iff. apply Qlt_le_weak. apply Qnot_le_lt.
    intros L. apply Qle_bool_iff in L. congruence.
  - apply String.leb_total.
Qed.

Lemma insert_by_sorted (c : string) (t : row) (l : list row) :
  Sorted (fun a b => Sql.value_leb (Obj.get c a) (Obj.get c b) = true) l ->
  Sorted (fun a b => Sql.value_leb (Obj.get c a) (Obj.get c b) = true)
    (Sql.insert_by c t l).
Proof.
  induction l as [|u l IH]; intros S; cbn.
  - repeat constructor.
  - destruct (Sql.value_leb (Obj.get c t) (Obj.get c u)) eqn:E.
    + constructor; [exact S | constructor; exact E].
    + inversion S as [|? ? S' Hd]; subst.
      constructor; [now apply IH|].
      assert (U : Sql.value_leb (Obj.get c u) (Obj.get c t) = true).
      { destruct (value_leb_total (Obj.get c t) (Obj.get c u)); congruence. }
      destruct l as [|v l]; cbn.
      * constructor; exact U.
      * destruct (Sql.value_leb (Obj.get c t) (Obj.get c v));
          constructor; [exact U|].
        inversion Hd; assumption.
Qed.

(** ORDER BY returns its rows in ascending order of the column. *)
Lemma sort_by_sorted (c : string) (l : list row) :
  Sorted (fun a b => Sql.value_leb (Obj.get c a) (Obj.get c b) = true)
    (Sql.sort_by c l).
Proof.
  induction l as [|t l IH]; cbn; [constructor|].
  now apply insert_by_sorted.
Qed.

Lemma Sorted_map {A B} (R : A -> A -> Prop) (R' : B -> B -> Prop)
  (g : A -> B) (l : list A) :
  (forall a b, R a b -> R' (g a) (g b)) ->
  Sorted R l -> Sorted R' (map g l).
Proof.
  intros M S. induction S as [|a l S IH Hd]; cbn; constructor; [exact IH|].
  destruct Hd; cbn; constructor. now apply M.
Qed.

Lemma filter_all {A} (l : list A) : filter (fun _ => true) l = l.
Proof.
  induction l as [|a l IH]; cbn; [reflexivity | now rewrite IH].
Qed.

(** The store is not at fault in [findAll]: the same select list without
    the comma before FROM is accepted, and every jobs row comes back, in
    ascending order of title. *)
Lemma store_selects_jobs_by_title (d : DB) :
  exists rows,
    fst (db.query select_by_title [] d) = inr rows
    /\ rows
       = map (fun t => [("title", Obj.get "title" t);
                        ("salary", Obj.get "salary" t);
                        ("equity", Obj.get "equity" t);
                        ("companyHandle", Obj.get "company_handle" t)])
           (Sql.sort_by "title" (map Sql.job_tuple (jobs d)))
    /\ Sorted title_le rows.
Proof.
  assert (P : Sql.parse_text select_by_title
              = Some (Sql.Select
                        [("title", "title"); ("salary", "salary");
                         ("equity", "equity");
                         ("company_handle", "companyHandle")]
                        "jobs" [] (Some "title")))
    by (vm_compute; reflexivity).
  unfold db.query. rewrite P.
  eexists. split; [reflexivity|]. split.
  - cbn [Sql.ordered Sql.holds forallb filter].
    rewrite filter_all. reflexivity.
  - cbn [Sql.ordered].
    eapply Sorted_map; [|apply (sort_by_sorted "title")].
    intros a b H. exact H.
Qed.

(** The second lookup of [get]: the companies row with that handle, if
    any. *)
Lemma query_get_company (h : string) (d : DB) :
  exists rows,
    db.query Jobs.get_company_sql [VStr h] d
    = (inr rows, db.sent Jobs.get_company_sql [VStr h] d)
    /\ first_row rows = option_map company_object (find_company h (companies d)).
Proof.
  unfold db.query. rewrite parse_get_company.
  eexists. split; [reflexivity|].
  cbn [Sql.ordered]. rewrite first_row_filter.
  unfold find_company.
  rewrite (find_agree _ (fun c => String.eqb (co_handle c) h));
    [reflexivity|].
  intros c. apply holds_handle.
Qed.

End StoreFacts.

(* ------------------------------------------------------------------------- *)
(** ** get *)
(* ------------------------------------------------------------------------- *)

Section Get.

Variable d : DB.
Variable id : Z.

Lemma get_absent :
  find_job id (jobs d) = None ->
  Jobs.get id d
  = (inl (NotFoundError ("No job: " ++ string_of_Z id)),
     db.sent Jobs.get_job_sql [num id] d).
Proof.
  intros H. unfold Jobs.get, bind.
  destruct (query_get_job id d) as (rows & -> & Hr).
  rewrite H in Hr; simpl in Hr. now rewrite Hr.
Qed.

Lemma get_present (j : Job) :
  find_job id (jobs d) = Some j ->
  Jobs.get id d
  = (inr (VObj (enriched j
                  (match find_company (job_company_handle j) (companies d) with
                   | Some c => VObj (company_object c)
                   | None => VUndef
                   end))),
     after_get id (job_company_handle j) d).
Proof.
  intros H. unfold Jobs.get, bind.
  destruct (query_get_job id d) as (rows & -> & Hr).
  rewrite H in Hr; simpl in Hr. rewrite Hr.
  change (Obj.get "companyHandle" (job_object j))
    with (VStr (job_company_handle j)).
  destruct (query_get_company (job_company_handle j)
              (db.sent Jobs.get_job_sql [num id] d)) as (crows & -> & Hc).
  unfold ret, after_get, Jobs.row0. rewrite Hc. cbn [companies db.sent].
  destruct (find_company (job_company_handle j) (companies d)); reflexivity.
Qed.

End Get.

(** C2.  [get id] fails with NotFound when no jobs row has that id.  When a
    row exists, and the company it references exists, [get] returns the
    scalar fields of the Job with the Company object embedded under
    [company]; the returned object has no [companyHandle] field.  The
    tables are left as they were. *)
Theorem get_returns_enriched_job_or_not_found (d : DB) (id : Z) :
  (find_job id (jobs d) = None ->
   exists e, fst (Jobs.get id d) = inl e /\ NotFound e) /\
  (forall j c,
     find_job id (jobs d) = Some j ->
     find_company (job_company_handle j) (companies d) = Some c ->
     exists o,
       fst (Jobs.get id d) = inr (VObj o) /\
       o = enriched j (VObj (company_object c)) /\
       Obj.get "company" o = VObj (company_object c) /\
       Obj.has "companyHandle" o = false /\
       jobs (snd (Jobs.get id d)) = jobs d /\
       companies (snd (Jobs.get id d)) = companies d).
Proof.
  split.
  - intros H. rewrite (get_absent d id H). eexists; split; reflexivity.
  - intros j c Hj Hc. rewrite (get_present d id j Hj), Hc.
    eexists; repeat split; reflexivity.
Qed.

Lemma get_returns_enriched_job_or_not_found_witness :
  (exists e, fst (Jobs.get 7 sample_db) = inl e /\ NotFound e) /\
  (exists o,
     fst (Jobs.get 1 sample_db) = inr (VObj o) /\
     o = enriched backend (VObj (company_object acme)) /\
     Obj.get "company" o = VObj (company_object acme) /\
     Obj.has "companyHandle" o = false /\
     jobs (snd (Jobs.get 1 sample_db)) = jobs sample_db /\
     companies (snd (Jobs.get 1 sample_db)) = companies sample_db).
Proof.
  split.
  - apply (proj1 (get_returns_enriched_job_or_not_found sample_db 7)).
    reflexivity.
  - apply (proj2 (get_returns_enriched_job_or_not_found sample_db 1)
             backend acme); reflexivity.
Defined.

(** C10.  When the jobs row exists and the companies row it references does
    not, [get] still returns: the Job without [companyHandle] and with
    [company] set to undefined.  No NotFound is raised for the missing
    Company. *)
Theorem get_succeeds_without_company (d : DB) (id : Z) (j : Job) :
  find_job id (jobs d) = Some j ->
  find_company (job_company_handle j) (companies d) = None ->
  fst (Jobs.get id d) = inr (VObj (enriched j VUndef)) /\
  Obj.has "companyHandle" (enriched j VUndef) = false /\
  Obj.get "company" (enriched j VUndef) = VUndef.
Proof.
  intros Hj Hc. rewrite (get_present d id j Hj), Hc.
  repeat split; reflexivity.
Qed.

Lemma get_succeeds_without_company_witness :
  fst (Jobs.get 2 orphan_db) = inr (VObj (enriched analyst VUndef)) /\
  Obj.has "companyHandle" (enriched analyst VUndef) = false /\
  Obj.get "company" (enriched analyst VUndef) = VUndef.
Proof.
  apply (get_succeeds_without_company orphan_db 2 analyst); reflexivity.
Defined.

(* ------------------------------------------------------------------------- *)
(** ** remove *)
(* ------------------------------------------------------------------------- *)

Section Remove.

Lemma first_row_map_filter {A} (g : A -> row) (p : A -> bool) (l : list A) :
  first_row (map g (filter p l)) = option_map g (find p l).
Proof.
  induction l as [|a l IH]; simpl; [reflexivity|].
  destruct (p a); simpl; [reflexivity | exact IH].
Qed.

Lemma find_has_job (id : Z) (js : list Job) :
  find_job id js = None <-> Sql.has_job js id = false.
Proof.
  unfold find_job, Sql.has_job.
  induction js as [|j js IH]; simpl; [tauto|].
  destruct (job_id j =? id)%Z; simpl; [split; discriminate | exact IH].
Qed.

Lemma find_job_after_delete (id : Z) (js : list Job) :
  find_job id (filter (fun j => negb (job_id j =? id)%Z) js) = None.
Proof.
  unfold find_job.
  induction js as [|j js IH]; simpl; [reflexivity|].
  destruct (job_id j =? id)%Z eqn:E; simpl; [exact IH|].
  now rewrite E.
Qed.

Lemma filter_length_bound {A} (p : A -> bool) (l : list A) :
  (List.length (filter p l) <= List.length l)%nat.
Proof.
  induction l as [|a l IH]; simpl; [lia|].
  destruct (p a); simpl; lia.
Qed.

(** Deleting by id leaves the table as it was exactly when no row had that
    id. *)
Lemma delete_keeps_all (id : Z) (js : list Job) :
  filter (fun j => negb (job_id j =? id)%Z) js = js
  <-> Sql.has_job js id = false.
Proof.
  unfold Sql.has_job.
  induction js as [|j js IH]; simpl; [tauto|].
  destruct (job_id j =? id)%Z eqn:E; simpl.
  - split; [|discriminate].
    intros H. exfalso.
    pose proof (filter_length_bound (fun j => negb (job_id j =? id)%Z) js) as L.
    rewrite H in L. simpl in L. lia.
  - split.
    + intros H. injection H as H. now apply IH.
    + intros H. f_equal. now apply IH.
Qed.

Lemma remove_run (id : Z) (d : DB) :
  Jobs.remove id d
  = (if Sql.has_job (jobs d) id then inr tt
     else inl (NotFoundError ("No job: " ++ string_of_Z id)),
     after_remove id d).
Proof.
  unfold Jobs.remove, bind, db.query. rewrite parse_remove.
  cbn [Sql.run String.eqb Ascii.eqb Bool.eqb Sql.run_delete Sql.items_ok
       Sql.job_columns forallb Sql.mem existsb negb orb andb
       Sql.bind_conds Sql.arg_value nth_error num].
  cbn [jobs companies next_id log db.sent].
  rewrite first_row_map_filter.
  rewrite (filter_ext _ (fun j => negb (job_id j =? id)%Z))
    by (intros j; f_equal; apply holds_id).
  rewrite (find_agree _ (fun j => (job_id j =? id)%Z))
    by (intros j; apply holds_id).
  fold (find_job id (jobs d)). unfold after_remove.
  destruct (Sql.has_job (jobs d) id) eqn:E.
  - destruct (find_job id (jobs d)) eqn:F; [reflexivity|].
    apply find_has_job in F. congruence.
  - apply find_has_job in E. now rewrite E.
Qed.

End Remove.

(** C4.  [remove id] fails with NotFound exactly when no row was deleted
    (the jobs table is as it was); otherwise it succeeds and produces no
    value.  After a successful [remove id], [get id] fails with NotFound. *)
Theorem remove_not_found_iff_nothing_deleted (d : DB) (id : Z) :
  (fst (Jobs.remove id d) = inl (NotFoundError ("No job: " ++ string_of_Z id))
   <-> jobs (snd (Jobs.remove id d)) = jobs d) /\
  (fst (Jobs.remove id d) = inr tt
   <-> jobs (snd (Jobs.remove id d)) <> jobs d) /\
  NotFound (NotFoundError ("No job: " ++ string_of_Z id)) /\
  (fst (Jobs.remove id d) = inr tt ->
   exists e, fst (Jobs.get id (snd (Jobs.remove id d))) = inl e /\ NotFound e).
Proof.
  rewrite remove_run. cbn [fst snd]. unfold after_remove at 1 2. cbn [jobs].
  pose proof (delete_keeps_all id (jobs d)) as K.
  destruct (Sql.has_job (jobs d) id) eqn:E.
  - assert (N : filter (fun j => negb (job_id j =? id)%Z) (jobs d) <> jobs d)
      by (intros H; apply K in H; discriminate).
    repeat split; try (intros; congruence); try (intros; contradiction).
    intros _. rewrite get_absent.
    + eexists; split; reflexivity.
    + apply find_job_after_delete.
  - assert (Y : filter (fun j => negb (job_id j =? id)%Z) (jobs d) = jobs d)
      by (now apply K).
    repeat split; try (intros; congruence); try discriminate.
Qed.

Lemma remove_not_found_iff_nothing_deleted_witness :
  exists e, fst (Jobs.get 1 (snd (Jobs.remove 1 sample_db))) = inl e
            /\ NotFound e.
Proof.
  apply (proj2 (proj2 (proj2
           (remove_not_found_iff_nothing_deleted sample_db 1)))).
  reflexivity.
Defined.

(* ------------------------------------------------------------------------- *)
(** ** findAll *)
(* ------------------------------------------------------------------------- *)

Section FindAll.

(** Whatever the search object, the store cannot parse the statement: the
    select list ends in a comma, directly followed by FROM. *)
Lemma findAll_text_unparsable (f : SearchFilters) :
  Sql.parse_text (findAll_text f) = None.
Proof.
  destruct f as [[t|] [m|] [[|]|]]; vm_compute; reflexivity.
Qed.

Lemma findAll_run (f : SearchFilters) (d : DB) :
  Jobs.findAll f d
  = if Jobs.negative (minSalary f)
    then (inl (ExpressError "Invalid Constraints" 400), d)
    else (inl (StoreError "syntax error"),
          db.sent (findAll_text f) (fst (Jobs.conditions f)) d).
Proof.
  unfold Jobs.findAll, bind, throw_if.
  destruct (Jobs.negative (minSalary f)); [reflexivity|].
  unfold ret. destruct (Jobs.conditions f) as [queryVal whereExp] eqn:E.
  unfold db.query.
  pose proof (findAll_text_unparsable f) as P.
  unfold findAll_text in P. rewrite E in P. cbn [snd] in P.
  rewrite P. unfold findAll_text. rewrite E. reflexivity.
Qed.

Lemma negative_spec (m : Q) : Jobs.negative (Some m) = true <-> (m < 0)%Q.
Proof.
  unfold Jobs.negative. rewrite negb_true_iff.
  split.
  - intros H. apply Qnot_le_lt. intros L.
    apply Qle_bool_iff in L. congruence.
  - intros H. destruct (Qle_bool 0 m) eqn:E; [|reflexivity].
    apply Qle_bool_iff in E. exfalso. exact (Qlt_not_le _ _ H E).
Qed.

End FindAll.

(** C1 (as the code behaves).  [findAll] never returns rows.  With a
    negative [minSalary] it throws before reaching the store; in every
    other case, the empty search object included, the statement it sends
    carries a comma right before FROM and the store rejects it as a syntax
    error.  The jobs table is not touched. *)
Theorem findAll_never_returns_rows (f : SearchFilters) (d : DB) :
  fst (Jobs.findAll f d)
  = inl (if Jobs.negative (minSalary f)
         then ExpressError "Invalid Constraints" 400
         else StoreError "syntax error")
  /\ jobs (snd (Jobs.findAll f d)) = jobs d.
Proof.
  rewrite findAll_run.
  destruct (Jobs.negative (minSalary f)); split; reflexivity.
Qed.

(** C5.  When [minSalary] is present and negative, [findAll] fails with a
    status-400 error ("Invalid Constraints") and the store is exactly as it
    was: no statement has been sent. *)
Theorem findAll_negative_minSalary_no_query
  (f : SearchFilters) (d : DB) (m : Q) :
  minSalary f = Some m ->
  (m < 0)%Q ->
  Jobs.findAll f d = (inl (ExpressError "Invalid Constraints" 400), d)
  /\ BadRequest (ExpressError "Invalid Constraints" 400)
  /\ log (snd (Jobs.findAll f d)) = log d.
Proof.
  intros Hm Hneg. rewrite findAll_run, Hm.
  apply negative_spec in Hneg. rewrite Hneg.
  repeat split; reflexivity.
Qed.

Lemma findAll_negative_minSalary_no_query_witness :
  Jobs.findAll (mkFilters None (Some (-1 # 1)%Q) None) sample_db
  = (inl (ExpressError "Invalid Constraints" 400), sample_db)
  /\ BadRequest (ExpressError "Invalid Constraints" 400)
  /\ log (snd (Jobs.findAll (mkFilters None (Some (-1 # 1)%Q) None) sample_db))
     = log sample_db.
Proof.
  apply (findAll_negative_minSalary_no_query
           (mkFilters None (Some (-1 # 1)%Q) None) sample_db (-1 # 1)%Q).
  - reflexivity.
  - reflexivity.
Defined.



(** C7 (as stated) fails: a search object with only [hasEquity: true] gives
    one condition and no parameter. *)
Lemma equity_condition_binds_no_parameter :
  ~ (forall f, one_parameter_per_condition f).
Proof.
  intros H. specialize (H (mkFilters None None (Some true))).
  vm_compute in H. discriminate H.
Qed.

(** C7 (amended).  [minSalary] and [title], when present, contribute one
    parameter each, and the equity condition contributes none.  The
    placeholders of the WHERE clause are $1 ... $n in this order, n being
    the number of parameters, and each condition's placeholder is the
    position of its value in the parameter list: [minSalary] first, then
    the pattern made from [title]. *)
Theorem placeholders_match_parameters (f : SearchFilters) :
  let queryVal := fst (Jobs.conditions f) in
  let whereExp := snd (Jobs.conditions f) in
  List.length queryVal = (present (minSalary f) + present (title f))%nat /\
  List.length whereExp
  = (List.length queryVal
     + match hasEquity f with Some true => 1 | _ => 0 end)%nat /\
  Sql.placeholders (Jobs.where_clause whereExp)
  = seq 1 (List.length queryVal) /\
  (forall m, minSalary f = Some m ->
     In "salary >= $1" whereExp /\ nth_error queryVal 0 = Some (VNum m)) /\
  (forall t, title f = Some t ->
     In ("title ILIKE $" ++ string_of_nat (List.length queryVal)) whereExp /\
     nth_error queryVal (List.length queryVal - 1)
     = Some (VStr ("%" ++ t ++ "%"))).
Proof.
  destruct f as [[t|] [m|] [[|]|]]; cbv zeta;
    (split; [reflexivity|]);
    (split; [reflexivity|]);
    (split; [vm_compute; reflexivity|]);
    (split; [intros m' E | intros t' E]);
    try discriminate E; injection E as <-;
    (split; [cbn; tauto | reflexivity]).
Qed.

Lemma placeholders_match_parameters_witness :
  In "salary >= $1"
     (snd (Jobs.conditions (mkFilters (Some "eng") (Some (100 # 1)%Q) (Some true))))
  /\ nth_error
       (fst (Jobs.conditions (mkFilters (Some "eng") (Some (100 # 1)%Q) (Some true))))
       0
     = Some (VNum (100 # 1)%Q).
Proof.
  apply (proj1 (proj2 (proj2 (proj2
           (placeholders_match_parameters
              (mkFilters (Some "eng") (Some (100 # 1)%Q) (Some true))))))).
  reflexivity.
Defined.

(* ------------------------------------------------------------------------- *)
(** ** What reaches the store *)
(* ------------------------------------------------------------------------- *)

Section Sent.

Ltac split_run :=
  repeat match goal with
         | |- context [match ?x with _ => _ end] => destruct x
         | |- context [if ?x then _ else _] => destruct x
         end;
  intros; try discriminate;
  match goal with
  | H : inr _ = inr _ |- _ => injection H as <- <-; reflexivity
  end.

(** Running a statement never touches the log. *)
Lemma run_keeps_log (st : Sql.stmt) (params : list value) (d d' : DB)
  (rows : list row) :
  Sql.run st params d = inr (rows, d') -> log d' = log d.
Proof.
  destruct st; unfold Sql.run, Sql.run_insert, Sql.run_update, Sql.run_delete.
  - destruct (Sql.run_select _ _ _ _ _ _); intros H; [discriminate|].
    now injection H as <- <-.
  - split_run.
  - split_run.
  - split_run.
Qed.

(** Every call of [db.query] appends exactly its statement and parameters
    to the log, whether the store then accepts the statement or not. *)
Lemma query_log (text : string) (params : list value) (d : DB) :
  log (snd (db.query text params d)) = push (log d) (text, params).
Proof.
  unfold db.query.
  destruct (Sql.parse_text text) as [st|]; [|reflexivity].
  destruct (Sql.run st params (db.sent text params d)) as [e|[rows d2]] eqn:E;
    [reflexivity|].
  cbn [snd]. now rewrite (run_keeps_log _ _ _ _ _ E).
Qed.

Lemma as_int_num (z : Z) : Sql.as_int (num z) = Some z.
Proof.
  unfold Sql.as_int, num, inject_Z. cbn [Qnum Qden].
  now rewrite Z.mod_1_r, Z.div_1_r.
Qed.

End Sent.

(* ------------------------------------------------------------------------- *)
(** ** create *)
(* ------------------------------------------------------------------------- *)

Section Create.

Variable d : DB.
Variables (t h : string) (s : Z) (e : Q).

Lemma job_of_tuple_job_tuple (j : Job) :
  Sql.job_of_tuple (Sql.job_tuple j) = inr j.
Proof.
  destruct j as [i ti [sa|] [eq|] ch]; unfold Sql.job_of_tuple, Sql.job_tuple;
    cbn [Obj.get String.eqb Ascii.eqb Bool.eqb job_id job_title job_salary
         job_equity job_company_handle Sql.opt_int Sql.opt_dec];
    rewrite ?as_int_num; try reflexivity;
    change (num sa) with (VNum (inject_Z sa)); cbn iota;
    change (VNum (inject_Z sa)) with (num sa);
    rewrite as_int_num; reflexivity.
Qed.

Lemma create_run :
  Sql.has_company d h = true ->
  Sql.has_job (jobs d) (next_id d) = false ->
  Jobs.create (new_job_data t (num s) (VNum e) h) d
  = (inr (VObj (job_object (mkJob (next_id d) t (Some s) (Some e) h))),
     after_create d (mkJob (next_id d) t (Some s) (Some e) h)
       (new_job_data t (num s) (VNum e) h)).
Proof.
  intros Hc Hj.
  unfold Jobs.create, bind, db.query. rewrite parse_create.
  unfold Sql.run, Sql.run_insert.
  cbn [String.eqb Ascii.eqb Bool.eqb List.length Nat.eqb negb Sql.items_ok
       Sql.job_columns forallb Sql.mem existsb orb andb combine
       Sql.bind_sets Sql.arg_value nth_error new_job_data Obj.get
       Sql.assign fold_left Obj.set next_id db.sent].
  unfold num. cbn iota. unfold Sql.assign.
  cbn [fold_left Obj.set String.eqb Ascii.eqb Bool.eqb].
  change [("id", VNum (inject_Z (next_id d))); ("title", VStr t);
          ("salary", VNum (inject_Z s));
          ("equity", VNum e); ("company_handle", VStr h)]
    with (Sql.job_tuple (mkJob (next_id d) t (Some s) (Some e) h)).
  rewrite job_of_tuple_job_tuple.
  unfold Sql.has_company, db.sent in *.
  cbn [job_company_handle job_id jobs companies next_id log] in *.
  rewrite Hc, Hj. reflexivity.
Qed.

End Create.

(** C9 (as stated) fails: a payload with salary -1 and equity 2 is not
    rejected; the row is stored with these values. *)
Lemma create_stores_out_of_range_values :
  fst (Jobs.create (new_job_data "x" (num (-1)) (VNum (2 # 1)%Q) "acme")
         sample_db)
  = inr (VObj (job_object (mkJob 3 "x" (Some (-1)%Z) (Some (2 # 1)%Q) "acme")))
  /\ jobs (snd (Jobs.create
                  (new_job_data "x" (num (-1)) (VNum (2 # 1)%Q) "acme")
                  sample_db))
     = [backend; analyst; mkJob 3 "x" (Some (-1)%Z) (Some (2 # 1)%Q) "acme"].
Proof. split; vm_compute; reflexivity. Qed.

(* ------------------------------------------------------------------------- *)
(** ** update *)
(* ------------------------------------------------------------------------- *)

Section UpdateSalary.

Variables (id s : Z).

Lemma parse_update_salary :
  Sql.parse_text (update_text [("salary", num s)])
  = Some (Sql.Update "jobs" [("salary", Sql.OParam 1)]
            [("id", Sql.OpEq, Sql.OParam 2)]
            [("id", "id"); ("title", "title"); ("salary", "salary");
             ("equity", "equity"); ("company_handle", "companyhandle")]).
Proof. vm_compute. reflexivity. Qed.

Lemma rewrite_jobs_salary (js : list Job) :
  Sql.rewrite_jobs [("id", Sql.OpEq, num id)] [("salary", num s)] js
  = inr (map (fun j => if (job_id j =? id)%Z then set_salary s j else j) js,
         map (set_salary s) (filter (fun j => (job_id j =? id)%Z) js)).
Proof.
  induction js as [|j js IH]; [reflexivity|].
  cbn [Sql.rewrite_jobs map filter]. rewrite IH, holds_id.
  destruct (job_id j =? id)%Z; [|reflexivity].
  change (Sql.assign [("salary", num s)] (Sql.job_tuple j))
    with (Sql.job_tuple (set_salary s j)).
  now rewrite job_of_tuple_job_tuple.
Qed.

Lemma referential_hit (d : DB) :
  referential d = true ->
  forallb (fun j => Sql.has_company d (job_company_handle j))
    (map (set_salary s) (filter (fun j => (job_id j =? id)%Z) (jobs d)))
  = true.
Proof.
  unfold referential. induction (jobs d) as [|j js IH]; [reflexivity|].
  cbn [forallb filter]. intros H. apply andb_true_iff in H as [Hj Hjs].
  destruct (job_id j =? id)%Z; [|now apply IH].
  cbn [map forallb set_salary job_company_handle].
  now rewrite Hj, IH.
Qed.

(** Updating the salary alone, on a store with referential integrity:
    NotFound when no row has the id, otherwise the first updated row, with
    the new salary and under the column names of the RETURNING clause. *)
Lemma update_salary_run (d : DB) :
  referential d = true ->
  Jobs.update id [("salary", num s)] d
  = (match find_job id (jobs d) with
     | Some j => inr (VObj (updated_object (set_salary s j)))
     | None => inl (NotFoundError ("No company: " ++ string_of_Z id))
     end,
     after_update_salary id s d).
Proof.
  intros R. unfold Jobs.update.
  change (sqlForPartialUpdate [("salary", num s)] [])
    with (@inr error _ ("salary = $1", [num s])).
  cbv iota beta. unfold bind, db.query.
  change (Jobs.update_sql "salary = $1"
            ("$" ++ string_of_nat (Datatypes.length [num s] + 1)))
    with (update_text [("salary", num s)]).
  rewrite parse_update_salary.
  unfold Sql.run, Sql.run_update.
  cbn [String.eqb Ascii.eqb Bool.eqb Sql.items_ok Sql.job_columns forallb
       Sql.mem existsb negb orb andb Sql.bind_sets Sql.bind_conds
       Sql.arg_value nth_error push app map fst].
  unfold num. cbv iota.
  change (VNum (inject_Z s)) with (num s).
  change (VNum (inject_Z id)) with (num id).
  unfold Sql.has_company, db.sent. cbn [jobs companies next_id log].
  rewrite rewrite_jobs_salary.
  pose proof (referential_hit d R) as F. unfold Sql.has_company in F.
  rewrite F. cbn [negb]. cbv iota.
  change (Sql.mem "id" (map fst [("salary", num s)])) with false.
  cbn [andb]. cbv iota beta.
  rewrite map_map, first_row_map_filter.
  fold (find_job id (jobs d)). unfold after_update_salary.
  destruct (find_job id (jobs d)); reflexivity.
Qed.

End UpdateSalary.

(** C8.  With an empty patch, [update] fails with BadRequest ("No data")
    and the store is exactly as it was: nothing has been sent. *)
Theorem update_empty_patch_bad_request (id : Z) (d : DB) :
  Jobs.update id [] d = (inl (BadRequestError "No data"), d)
  /\ BadRequest (BadRequestError "No data")
  /\ log (snd (Jobs.update id [] d)) = log d.
Proof. repeat split; reflexivity. Qed.

(** C3 (as the code behaves).  Updating the salary of an existing job
    returns the stored row, but under the key [companyhandle]: the alias
    in RETURNING is not quoted and the store folds it to lower case.  The
    returned object has no [companyHandle] field. *)
Theorem update_returns_lowercase_companyhandle :
  fst (Jobs.update 1 [("salary", num 500)] sample_db)
  = inr (VObj [("id", num 1);
               ("title", VStr "Backend Engineer");
               ("salary", num 500);
               ("equity", VNum (1 # 100)%Q);
               ("companyhandle", VStr "acme")])
  /\ Obj.keys [("id", num 1);
               ("title", VStr "Backend Engineer");
               ("salary", num 500);
               ("equity", VNum (1 # 100)%Q);
               ("companyhandle", VStr "acme")]
     <> ["id"; "title"; "salary"; "equity"; "companyHandle"].
Proof.
  split; [vm_compute; reflexivity | discriminate].
Qed.

(* ------------------------------------------------------------------------- *)
(** ** Failed statements and statements without rows *)
(* ------------------------------------------------------------------------- *)

Section Atomic.

Lemma same_tables_refl (d : DB) : same_tables d d.
Proof. repeat split. Qed.

Lemma same_tables_trans (d1 d2 d3 : DB) :
  same_tables d1 d2 -> same_tables d2 d3 -> same_tables d1 d3.
Proof.
  unfold same_tables. intros (A & B & C) (A' & B' & C').
  repeat split; congruence.
Qed.

Lemma same_tables_sent (text : string) (params : list value) (d : DB) :
  same_tables d (db.sent text params d).
Proof. repeat split. Qed.

Lemma rewrite_jobs_no_hit bc bs (js all : list Job) :
  Sql.rewrite_jobs bc bs js = inr (all, []) -> all = js.
Proof.
  revert all. induction js as [|j js IH]; intros all; cbn [Sql.rewrite_jobs].
  - now intros [= <-].
  - destruct (Sql.rewrite_jobs bc bs js) as [e|[all' hit']]; [discriminate|].
    destruct (Sql.holds bc (Sql.job_tuple j)).
    + destruct (Sql.job_of_tuple _); discriminate.
    + intros [= <- ->]. f_equal. now apply IH.
Qed.

Lemma filter_none_keeps {A} (p : A -> bool) (l : list A) :
  filter p l = [] -> filter (fun a => negb (p a)) l = l.
Proof.
  induction l as [|a l IH]; cbn; [reflexivity|].
  destruct (p a); cbn; [discriminate|].
  intros H. f_equal. now apply IH.
Qed.

Lemma map_nil_inv {A B} (f : A -> B) (l : list A) : map f l = [] -> l = [].
Proof. destruct l; [reflexivity | discriminate]. Qed.

(** A statement that returns no row has changed no table. *)
Lemma run_no_rows (st : Sql.stmt) (params : list value) (d d' : DB) :
  Sql.run st params d = inr ([], d') -> same_tables d d'.
Proof.
  destruct st as [its tb cs o|tb cols vals ret|tb sets cs ret|tb cs ret];
    unfold Sql.run.
  - destruct (Sql.run_select _ _ _ _ _ _); [discriminate|].
    intros [= _ <-]. apply same_tables_refl.
  - destruct (String.eqb tb "jobs"); [|discriminate].
    unfold Sql.run_insert.
    repeat match goal with
           | |- context [match ?x with _ => _ end] => destruct x
           | |- context [if ?x then _ else _] => destruct x
           end; discriminate.
  - destruct (String.eqb tb "jobs"); [|discriminate].
    unfold Sql.run_update.
    destruct (negb _); [discriminate|].
    destruct (Sql.bind_sets _ _ _) as [bs|]; [|discriminate].
    destruct (Sql.bind_conds _ _ _) as [bc|]; [|discriminate].
    destruct (Sql.rewrite_jobs bc bs (jobs d)) as [e|[all hit]] eqn:E;
      [discriminate|].
    destruct (negb _); [discriminate|].
    destruct (_ && _); [discriminate|].
    intros [= H <-]. apply map_nil_inv in H. subst hit.
    apply rewrite_jobs_no_hit in E. subst all. repeat split.
  - destruct (String.eqb tb "jobs"); [|discriminate].
    unfold Sql.run_delete.
    destruct (negb _); [discriminate|].
    destruct (Sql.bind_conds _ _ _) as [bc|]; [|discriminate].
    intros [= H <-]. apply map_nil_inv in H.
    repeat split. cbn [jobs].
    now apply (filter_none_keeps (fun j => Sql.holds bc (Sql.job_tuple j))).
Qed.

(** [db.query] fails only with a store error, and then no table has
    changed. *)
Lemma query_error (text : string) (params : list value) (d d' : DB)
  (e : error) :
  db.query text params d = (inl e, d') ->
  same_tables d d' /\ exists m, e = StoreError m.
Proof.
  unfold db.query.
  destruct (Sql.parse_text text) as [st|].
  - destruct (Sql.run st params _) as [m|[rows d2]]; [|discriminate].
    intros [= <- <-]. split; [apply same_tables_sent | now exists m].
  - intros [= <- <-]. split; [apply same_tables_sent | now eexists].
Qed.

Lemma query_no_rows (text : string) (params : list value) (d d' : DB) :
  db.query text params d = (inr [], d') -> same_tables d d'.
Proof.
  unfold db.query.
  destruct (Sql.parse_text text) as [st|]; [|discriminate].
  destruct (Sql.run st params _) as [m|[rows d2]] eqn:E; [discriminate|].
  intros [= -> ->]. apply run_no_rows in E.
  eapply same_tables_trans; [apply same_tables_sent | exact E].
Qed.

End Atomic.

(* ------------------------------------------------------------------------- *)
(** ** create, on any payload *)
(* ------------------------------------------------------------------------- *)

Section CreateAny.

Lemma arg_value_param (params : list value) (k : nat) (v : value) :
  nth_error params k = Some v ->
  Sql.arg_value params (Sql.OParam (S k)) = Some (as_sent v).
Proof.
  intros H. cbn [Sql.arg_value]. rewrite H. now destruct v.
Qed.

Lemma bind_create_params (v1 v2 v3 v4 : value) :
  Sql.bind_sets Sql.job_columns [v1; v2; v3; v4]
    (combine ["title"; "salary"; "equity"; "company_handle"]
       [Sql.OParam 1; Sql.OParam 2; Sql.OParam 3; Sql.OParam 4])
  = Some [("title", as_sent v1); ("salary", as_sent v2);
          ("equity", as_sent v3); ("company_handle", as_sent v4)].
Proof.
  cbn [combine Sql.bind_sets Sql.mem Sql.job_columns existsb String.eqb
       Ascii.eqb Bool.eqb orb andb].
  rewrite (arg_value_param [v1; v2; v3; v4] 0 v1 eq_refl).
  rewrite (arg_value_param [v1; v2; v3; v4] 1 v2 eq_refl).
  rewrite (arg_value_param [v1; v2; v3; v4] 2 v3 eq_refl).
  rewrite (arg_value_param [v1; v2; v3; v4] 3 v4 eq_refl).
  reflexivity.
Qed.

(** What a tuple must hold to be read back as a jobs row. *)
Lemma job_of_tuple_fields (t : row) (j : Job) :
  Sql.job_of_tuple t = inr j ->
  Sql.as_int (Obj.get "id" t) = Some (job_id j)
  /\ Obj.get "title" t = VStr (job_title j)
  /\ Obj.get "company_handle" t = VStr (job_company_handle j).
Proof.
  unfold Sql.job_of_tuple.
  destruct (Sql.as_int (Obj.get "id" t)) as [i|]; [|discriminate].
  destruct (Obj.get "title" t) as [| |b|q|ti|fs]; try discriminate.
  destruct (match Obj.get "salary" t with VNull => _ | _ => _ end) as [sa|];
    [|discriminate].
  destruct (match Obj.get "equity" t with VNull => _ | _ => _ end) as [eq|];
    [|discriminate].
  destruct (Obj.get "company_handle" t) as [| |b|q|h|fs]; try discriminate.
  intros [= <-]. repeat split.
Qed.

Lemma as_sent_text (v : value) (s : string) : as_sent v = VStr s -> v = VStr s.
Proof. destruct v; cbn; congruence. Qed.

(** The INSERT of [create], on any four parameters: either the store
    refuses it, or one row is appended under the next serial. *)
Lemma insert_run (data : row) (d : DB) :
  (exists m,
     db.query Jobs.create_sql (create_params data) d
     = (inl (StoreError m), db.sent Jobs.create_sql (create_params data) d))
  \/
  (exists j,
     db.query Jobs.create_sql (create_params data) d
     = (inr [job_object j], after_create d j data)
     /\ job_id j = next_id d
     /\ Obj.get "title" data = VStr (job_title j)
     /\ Obj.get "companyHandle" data = VStr (job_company_handle j)
     /\ Sql.has_company d (job_company_handle j) = true
     /\ Sql.has_job (jobs d) (next_id d) = false).
Proof.
  unfold db.query. rewrite parse_create.
  unfold Sql.run, Sql.run_insert, create_params.
  change (String.eqb "jobs" "jobs") with true. cbv iota.
  change (negb (_ =? _)%nat) with false. cbv iota.
  change (negb (Sql.items_ok Sql.job_columns _)) with false. cbv iota.
  rewrite bind_create_params.
  unfold Sql.assign.
  cbn [fold_left Obj.set String.eqb Ascii.eqb Bool.eqb next_id db.sent].
  destruct (Sql.job_of_tuple _) as [m|j] eqn:E; [left; now exists m|].
  apply job_of_tuple_fields in E.
  cbn [Obj.get String.eqb Ascii.eqb Bool.eqb] in E.
  rewrite as_int_num in E. destruct E as ([= Hid] & Ht & Hh).
  apply as_sent_text in Ht. apply as_sent_text in Hh.
  change (Sql.mem "id" ["title"; "salary"; "equity"; "company_handle"])
    with false. cbv iota.
  unfold Sql.has_company, db.sent. cbn [companies jobs log next_id].
  destruct (existsb _ (companies d)) eqn:C; cbn [negb];
    [|left; now eexists].
  destruct (Sql.has_job (jobs d) (job_id j)) eqn:J; [left; now eexists|].
  right. exists j. rewrite <- Hid in J.
  split; [reflexivity|]. repeat split; auto.
Qed.

End CreateAny.

(** C9 (amended).  No input is rejected by [create] or [update] for its
    salary or equity, a negative salary and an equity outside [0, 1]
    included.  Whatever the payload, [create] sends its statement with the
    title, salary, equity and company handle of the payload unchanged as
    parameters; whatever the non-empty patch, [update] sends its statement
    with the values of the patch unchanged, followed by the id.  A failure
    comes only after that: from [create] it is an error raised by the
    store, from [update] on a non-empty patch it is NotFound or an error
    raised by the store. *)
Theorem create_update_send_values_unchecked :
  (forall data d,
     log (snd (Jobs.create data d))
     = push (log d) (Jobs.create_sql, create_params data)) /\
  (forall data d e,
     fst (Jobs.create data d) = inl e -> exists m, e = StoreError m) /\
  (forall id data d,
     data <> [] ->
     log (snd (Jobs.update id data d))
     = push (log d) (update_text data, push (Obj.values data) (num id))) /\
  (forall id data d e,
     data <> [] ->
     fst (Jobs.update id data d) = inl e ->
     e = NotFoundError ("No company: " ++ string_of_Z id)
     \/ exists m, e = StoreError m).
Proof.
  split; [|split; [|split]].
  - intros data d. unfold Jobs.create, bind.
    pose proof (query_log Jobs.create_sql (create_params data) d) as L.
    unfold create_params in L.
    destruct (db.query Jobs.create_sql _ d) as [[err|rows] d']; exact L.
  - intros data d e. unfold Jobs.create, bind. fold (create_params data).
    destruct (insert_run data d) as [(m & Q)|(j & Q & _)];
      rewrite Q; cbn [fst]; [|discriminate].
    intros [= <-]. now exists m.
  - intros id data d Hne. unfold Jobs.update, sqlForPartialUpdate.
    destruct data as [|kv data]; [contradiction|].
    cbn [Obj.keys map List.length Nat.eqb]. unfold bind.
    pose proof (query_log (update_text (kv :: data))
                  (push (Obj.values (kv :: data)) (num id)) d) as L.
    unfold update_text in L. cbn [Obj.keys map] in L.
    destruct (db.query _ _ d) as [[err|rows] d']; [exact L|].
    destruct (first_row rows); exact L.
  - intros id data d e Hne. unfold Jobs.update, sqlForPartialUpdate.
    destruct data as [|kv data]; [contradiction|].
    cbn [Obj.keys map List.length Nat.eqb]. unfold bind.
    destruct (db.query _ _ d) as [[err|rows] d'] eqn:Q; cbn [fst].
    + intros [= <-]. apply query_error in Q as (_ & m & ->).
      right. now exists m.
    + destruct (first_row rows); cbn [fst throw ret]; [discriminate|].
      intros [= <-]. now left.
Qed.

Lemma create_update_send_values_unchecked_witness :
  log (snd (Jobs.update 1 [("salary", num (-5)); ("equity", VNum (3 # 2)%Q)]
              sample_db))
  = push (log sample_db)
      (update_text [("salary", num (-5)); ("equity", VNum (3 # 2)%Q)],
       push (Obj.values [("salary", num (-5)); ("equity", VNum (3 # 2)%Q)])
         (num 1))
  /\ (NotFoundError "No company: 9"
      = NotFoundError ("No company: " ++ string_of_Z 9)
      \/ exists m, NotFoundError "No company: 9" = StoreError m)
  /\ exists m, StoreError "violates foreign key constraint" = StoreError m.
Proof.
  split; [|split].
  - apply (proj1 (proj2 (proj2 create_update_send_values_unchecked))
             1%Z [("salary", num (-5)); ("equity", VNum (3 # 2)%Q)] sample_db).
    discriminate.
  - apply (proj2 (proj2 (proj2 create_update_send_values_unchecked))
             9%Z [("salary", num (-5))] sample_db).
    + discriminate.
    + vm_compute. reflexivity.
  - apply (proj1 (proj2 create_update_send_values_unchecked)
             (new_job_data "x" (num (-1)) (VNum (2 # 1)%Q) "acme") orphan_db).
    vm_compute. reflexivity.
Defined.

Section CreateThenGet.

Lemma has_company_find (d : DB) (h : string) (c : Company) :
  find_company h (companies d) = Some c -> Sql.has_company d h = true.
Proof.
  unfold find_company, Sql.has_company.
  induction (companies d) as [|c' cs IH]; cbn; [discriminate|].
  destruct (String.eqb (co_handle c') h); [reflexivity | exact IH].
Qed.

Lemma find_job_push (js : list Job) (j : Job) :
  Sql.has_job js (job_id j) = false ->
  find_job (job_id j) (push js j) = Some j.
Proof.
  unfold find_job, Sql.has_job, push.
  induction js as [|k js IH]; cbn.
  - now rewrite Z.eqb_refl.
  - destruct (job_id k =? job_id j)%Z; cbn; [discriminate | exact IH].
Qed.

(** [get] reads the tables only: stores with the same tables give the same
    outcome. *)
Lemma get_same_tables (id : Z) (d d' : DB) :
  same_tables d d' -> fst (Jobs.get id d') = fst (Jobs.get id d).
Proof.
  intros (Hj & Hc & _).
  destruct (find_job id (jobs d)) as [j|] eqn:F.
  - rewrite (get_present d id j F), (get_present d' id j) by congruence.
    cbn [fst]. now rewrite Hc.
  - rewrite (get_absent d id F), (get_absent d' id) by congruence.
    reflexivity.
Qed.

Lemma get_keeps_tables (id : Z) (d : DB) :
  same_tables d (snd (Jobs.get id d)).
Proof.
  destruct (find_job id (jobs d)) as [j|] eqn:F.
  - rewrite (get_present d id j F). repeat split.
  - rewrite (get_absent d id F). repeat split.
Qed.

(** More precisely, [get id] depends on the first jobs row with that id and
    on the companies table. *)
Lemma get_same_lookup (id : Z) (d d' : DB) :
  find_job id (jobs d') = find_job id (jobs d) ->
  companies d' = companies d ->
  fst (Jobs.get id d') = fst (Jobs.get id d).
Proof.
  intros Hj Hc.
  destruct (find_job id (jobs d)) as [j|] eqn:F.
  - rewrite (get_present d id j F), (get_present d' id j Hj).
    cbn [fst]. now rewrite Hc.
  - rewrite (get_absent d id F), (get_absent d' id Hj). reflexivity.
Qed.

Lemma create_payload_run (d : DB) (t h : string) (so : option Z)
  (eo : option Q) :
  Sql.has_company d h = true ->
  Sql.has_job (jobs d) (next_id d) = false ->
  Jobs.create (payload t so eo h) d
  = (inr (VObj (job_object (mkJob (next_id d) t so eo h))),
     after_create d (mkJob (next_id d) t so eo h) (payload t so eo h)).
Proof.
  intros Hc Hj.
  unfold Jobs.create, bind. fold (create_params (payload t so eo h)).
  unfold db.query. rewrite parse_create.
  unfold Sql.run, Sql.run_insert.
  change (String.eqb "jobs" "jobs") with true. cbv iota.
  change (negb (_ =? _)%nat) with false. cbv iota.
  change (negb (Sql.items_ok Sql.job_columns _)) with false. cbv iota.
  unfold create_params at 1. rewrite bind_create_params.
  replace (Sql.assign _ _)
    with (Sql.job_tuple (mkJob (next_id d) t so eo h))
    by (destruct so, eo; reflexivity).
  rewrite job_of_tuple_job_tuple.
  unfold Sql.has_company in *. unfold db.sent.
  cbn [companies jobs job_company_handle job_id next_id].
  rewrite Hc, Hj. reflexivity.
Qed.

End CreateThenGet.

(** X1.  Round trip of [create] and [get].  On a store where the company
    exists and the serial is not yet in use, [create] returns the new Job
    under the next serial, with salary and equity null when the payload
    leaves them out, and [get] on that id then returns the same scalar
    fields with the Company embedded. *)
Theorem create_then_get (d : DB) (t h : string) (so : option Z)
  (eo : option Q) (c : Company) :
  find_company h (companies d) = Some c ->
  Sql.has_job (jobs d) (next_id d) = false ->
  fst (Jobs.create (payload t so eo h) d)
  = inr (VObj (job_object (mkJob (next_id d) t so eo h)))
  /\ fst (Jobs.get (next_id d) (snd (Jobs.create (payload t so eo h) d)))
     = inr (VObj (enriched (mkJob (next_id d) t so eo h)
                    (VObj (company_object c)))).
Proof.
  intros Hc Hj.
  rewrite (create_payload_run d t h so eo (has_company_find d h c Hc) Hj).
  split; [reflexivity|]. cbn [snd].
  rewrite (get_present _ (next_id d) (mkJob (next_id d) t so eo h)).
  - cbn [fst after_create companies job_company_handle]. now rewrite Hc.
  - unfold after_create; cbn [jobs].
    now apply (find_job_push (jobs d) (mkJob (next_id d) t so eo h)).
Qed.

Lemma create_then_get_witness :
  fst (Jobs.create (payload "Designer" None (Some (1 # 2)%Q) "acme") sample_db)
  = inr (VObj (job_object (mkJob 3 "Designer" None (Some (1 # 2)%Q) "acme")))
  /\ fst (Jobs.get 3
            (snd (Jobs.create (payload "Designer" None (Some (1 # 2)%Q) "acme")
                    sample_db)))
     = inr (VObj (enriched (mkJob 3 "Designer" None (Some (1 # 2)%Q) "acme")
                    (VObj (company_object acme)))).
Proof.
  apply (create_then_get sample_db "Designer" "acme" None (Some (1 # 2)%Q) acme);
    reflexivity.
Defined.

(** X2.  Whenever [create] returns, for any payload, it returns the row
    just stored, whose id is the next serial of the store and never a value
    taken from the payload; the title and company handle are those of the
    payload, the company exists, the row is appended after the existing
    rows, which are kept, and the serial advances by one. *)
Theorem create_returns_row_under_next_serial (data : row) (d : DB)
  (o : value) :
  fst (Jobs.create data d) = inr o ->
  exists j,
    o = VObj (job_object j)
    /\ job_id j = next_id d
    /\ Obj.get "title" data = VStr (job_title j)
    /\ Obj.get "companyHandle" data = VStr (job_company_handle j)
    /\ Sql.has_company d (job_company_handle j) = true
    /\ jobs (snd (Jobs.create data d)) = push (jobs d) j
    /\ companies (snd (Jobs.create data d)) = companies d
    /\ next_id (snd (Jobs.create data d)) = (next_id d + 1)%Z.
Proof.
  unfold Jobs.create, bind. fold (create_params data).
  destruct (insert_run data d) as [(m & Q)|(j & Q & I & T & H & C & _)];
    rewrite Q; cbn [fst snd]; [discriminate|].
  intros [= <-]. exists j. repeat split; assumption.
Qed.

Lemma create_returns_row_under_next_serial_witness :
  exists j,
    VObj (job_object (mkJob 3 "x" None None "acme")) = VObj (job_object j)
    /\ job_id j = next_id sample_db
    /\ Obj.get "title" [("id", num 99); ("title", VStr "x");
                        ("companyHandle", VStr "acme")]
       = VStr (job_title j)
    /\ Obj.get "companyHandle" [("id", num 99); ("title", VStr "x");
                                ("companyHandle", VStr "acme")]
       = VStr (job_company_handle j)
    /\ Sql.has_company sample_db (job_company_handle j) = true
    /\ jobs (snd (Jobs.create [("id", num 99); ("title", VStr "x");
                               ("companyHandle", VStr "acme")] sample_db))
       = push (jobs sample_db) j
    /\ companies (snd (Jobs.create [("id", num 99); ("title", VStr "x");
                                    ("companyHandle", VStr "acme")] sample_db))
       = companies sample_db
    /\ next_id (snd (Jobs.create [("id", num 99); ("title", VStr "x");
                                  ("companyHandle", VStr "acme")] sample_db))
       = (next_id sample_db + 1)%Z.
Proof.
  apply (create_returns_row_under_next_serial
           [("id", num 99); ("title", VStr "x"); ("companyHandle", VStr "acme")]
           sample_db).
  vm_compute. reflexivity.
Defined.

(** X3.  [create] makes no check of its own: when it fails, the failure is
    an error of the store, passed on as it is (never BadRequest, never
    NotFound), and no table has changed. *)
Theorem create_fails_only_with_store_error (data : row) (d : DB)
  (e : error) :
  fst (Jobs.create data d) = inl e ->
  (exists m, e = StoreError m)
  /\ ~ BadRequest e /\ ~ NotFound e
  /\ same_tables d (snd (Jobs.create data d)).
Proof.
  unfold Jobs.create, bind. fold (create_params data).
  destruct (insert_run data d) as [(m & Q)|(j & Q & _)];
    rewrite Q; cbn [fst snd]; [|discriminate].
  intros [= <-]. split; [now exists m|].
  repeat split; discriminate.
Qed.

Lemma create_fails_only_with_store_error_witness :
  (exists m, StoreError "violates foreign key constraint" = StoreError m)
  /\ ~ BadRequest (StoreError "violates foreign key constraint")
  /\ ~ NotFound (StoreError "violates foreign key constraint")
  /\ same_tables orphan_db
       (snd (Jobs.create (payload "x" None None "acme") orphan_db)).
Proof.
  apply (create_fails_only_with_store_error
           (payload "x" None None "acme") orphan_db).
  vm_compute. reflexivity.
Defined.

(* ------------------------------------------------------------------------- *)
(** ** get, further *)
(* ------------------------------------------------------------------------- *)

(** X4.  [get] only reads.  For every id it leaves both tables and the
    serial as they were.  It sends the jobs lookup, and the companies
    lookup only when the job was found, bound to that job's company
    handle. *)
Theorem get_reads_only (id : Z) (d : DB) :
  same_tables d (snd (Jobs.get id d))
  /\ log (snd (Jobs.get id d))
     = match find_job id (jobs d) with
       | None => push (log d) (Jobs.get_job_sql, [num id])
       | Some j =>
           push (push (log d) (Jobs.get_job_sql, [num id]))
             (Jobs.get_company_sql, [VStr (job_company_handle j)])
       end.
Proof.
  destruct (find_job id (jobs d)) as [j|] eqn:F.
  - rewrite (get_present d id j F). split; [repeat split | reflexivity].
  - rewrite (get_absent d id F). split; [repeat split | reflexivity].
Qed.

(** X5.  Asking twice gives the same answer: the outcome of [get] on the
    store left by [get] is the outcome of the first call. *)
Theorem get_twice (id : Z) (d : DB) :
  fst (Jobs.get id (snd (Jobs.get id d))) = fst (Jobs.get id d).
Proof.
  apply get_same_tables. apply get_keeps_tables.
Qed.

(* ------------------------------------------------------------------------- *)
(** ** remove, further *)
(* ------------------------------------------------------------------------- *)

Section RemoveOthers.

Lemma find_job_delete_other (id id' : Z) (js : list Job) :
  id' <> id ->
  find_job id' (filter (fun j => negb (job_id j =? id)%Z) js)
  = find_job id' js.
Proof.
  intros N. unfold find_job.
  induction js as [|j js IH]; cbn; [reflexivity|].
  destruct (job_id j =? id)%Z eqn:E; cbn.
  - apply Z.eqb_eq in E.
    destruct (job_id j =? id')%Z eqn:E'; [|exact IH].
    apply Z.eqb_eq in E'. congruence.
  - now rewrite IH.
Qed.

End RemoveOthers.

(** X6.  [remove id] touches no other job: for every other id, [get]
    answers after the removal what it answered before, whether or not the
    removal found a row. *)
Theorem remove_keeps_other_jobs (id id' : Z) (d : DB) :
  id' <> id ->
  fst (Jobs.get id' (snd (Jobs.remove id d))) = fst (Jobs.get id' d).
Proof.
  intros N. rewrite remove_run. cbn [snd].
  apply get_same_lookup; [|reflexivity].
  unfold after_remove; cbn [jobs]. now apply find_job_delete_other.
Qed.

Lemma remove_keeps_other_jobs_witness :
  fst (Jobs.get 2 (snd (Jobs.remove 1 sample_db))) = fst (Jobs.get 2 sample_db).
Proof.
  apply (remove_keeps_other_jobs 1 2 sample_db). discriminate.
Defined.

(** X7.  Removing twice: whatever the first [remove id] did, a second
    [remove id] fails with NotFound and deletes nothing. *)
Theorem remove_twice_not_found (id : Z) (d : DB) :
  fst (Jobs.remove id (snd (Jobs.remove id d)))
  = inl (NotFoundError ("No job: " ++ string_of_Z id))
  /\ jobs (snd (Jobs.remove id (snd (Jobs.remove id d))))
     = jobs (snd (Jobs.remove id d)).
Proof.
  rewrite (remove_run id d). cbn [snd].
  rewrite (remove_run id (after_remove id d)). cbn [fst snd].
  assert (H : Sql.has_job (jobs (after_remove id d)) id = false).
  { apply find_has_job. unfold after_remove; cbn [jobs].
    apply find_job_after_delete. }
  rewrite H. split; [reflexivity|].
  unfold after_remove at 1. cbn [jobs].
  now apply delete_keeps_all.
Qed.

(* ------------------------------------------------------------------------- *)
(** ** update, further *)
(* ------------------------------------------------------------------------- *)

Section UpdateOthers.

Variables (id s : Z).

Lemma find_job_rewritten (js : list Job) :
  find_job id (map (fun j => if (job_id j =? id)%Z then set_salary s j else j)
                 js)
  = option_map (set_salary s) (find_job id js).
Proof.
  unfold find_job. induction js as [|j js IH]; cbn; [reflexivity|].
  destruct (job_id j =? id)%Z eqn:E; cbn [set_salary job_id];
    rewrite E; [reflexivity | exact IH].
Qed.

Lemma find_job_rewritten_other (id' : Z) (js : list Job) :
  id' <> id ->
  find_job id' (map (fun j => if (job_id j =? id)%Z then set_salary s j else j)
                  js)
  = find_job id' js.
Proof.
  intros N. unfold find_job. induction js as [|j js IH]; cbn; [reflexivity|].
  destruct (job_id j =? id)%Z eqn:E; cbn [set_salary job_id].
  - apply Z.eqb_eq in E.
    destruct (job_id j =? id')%Z eqn:E'; [|exact IH].
    apply Z.eqb_eq in E'. congruence.
  - now rewrite IH.
Qed.

End UpdateOthers.

(** X8.  A patch of the salary alone, on a store with referential
    integrity and an existing job: [update] returns the row with the new
    salary, a following [get] of that id shows the new salary with title,
    equity and company as before, and [get] of any other id answers as
    before the update. *)
Theorem update_salary_changes_only_salary (id s : Z) (d : DB) (j : Job) :
  referential d = true ->
  find_job id (jobs d) = Some j ->
  fst (Jobs.update id [("salary", num s)] d)
  = inr (VObj (updated_object (set_salary s j)))
  /\ (forall co,
        fst (Jobs.get id d) = inr (VObj (enriched j co)) ->
        fst (Jobs.get id (snd (Jobs.update id [("salary", num s)] d)))
        = inr (VObj (enriched (set_salary s j) co)))
  /\ (forall id',
        id' <> id ->
        fst (Jobs.get id' (snd (Jobs.update id [("salary", num s)] d)))
        = fst (Jobs.get id' d)).
Proof.
  intros R F. rewrite (update_salary_run id s d R), F. cbn [fst snd].
  split; [reflexivity|]. split.
  - intros co. rewrite (get_present d id j F).
    rewrite (get_present _ id (set_salary s j)).
    + cbn [fst after_update_salary companies set_salary job_company_handle].
      intros [= H]. now rewrite H.
    + unfold after_update_salary; cbn [jobs].
      now rewrite find_job_rewritten, F.
  - intros id' N. apply get_same_lookup; [|reflexivity].
    unfold after_update_salary; cbn [jobs].
    now apply find_job_rewritten_other.
Qed.

Lemma update_salary_changes_only_salary_witness :
  fst (Jobs.update 1 [("salary", num 500)] sample_db)
  = inr (VObj (updated_object (set_salary 500 backend)))
  /\ (forall co,
        fst (Jobs.get 1 sample_db) = inr (VObj (enriched backend co)) ->
        fst (Jobs.get 1 (snd (Jobs.update 1 [("salary", num 500)] sample_db)))
        = inr (VObj (enriched (set_salary 500 backend) co)))
  /\ (forall id',
        id' <> 1%Z ->
        fst (Jobs.get id' (snd (Jobs.update 1 [("salary", num 500)] sample_db)))
        = fst (Jobs.get id' sample_db)).
Proof.
  apply (update_salary_changes_only_salary 1 500 sample_db backend);
    reflexivity.
Defined.

(** X9.  A patch of the salary alone, on a store with referential
    integrity: [update] fails with NotFound exactly when no job has that
    id.  The message of that error reads "No company: <id>". *)
Theorem update_salary_not_found_iff_absent (id s : Z) (d : DB) :
  referential d = true ->
  (find_job id (jobs d) = None <->
   fst (Jobs.update id [("salary", num s)] d)
   = inl (NotFoundError ("No company: " ++ string_of_Z id)))
  /\ (find_job id (jobs d) = None <->
      exists e, fst (Jobs.update id [("salary", num s)] d) = inl e).
Proof.
  intros R. rewrite (update_salary_run id s d R). cbn [fst].
  destruct (find_job id (jobs d)) as [j|]; split; split; intros H;
    try discriminate H; try reflexivity;
    try (destruct H as (e & H); discriminate H);
    now eexists.
Qed.

Lemma update_salary_not_found_iff_absent_witness :
  (find_job 9 (jobs sample_db) = None <->
   fst (Jobs.update 9 [("salary", num 500)] sample_db)
   = inl (NotFoundError ("No company: " ++ string_of_Z 9)))
  /\ (find_job 9 (jobs sample_db) = None <->
      exists e, fst (Jobs.update 9 [("salary", num 500)] sample_db) = inl e).
Proof.
  apply (update_salary_not_found_iff_absent 9 500 sample_db). reflexivity.
Defined.

(** X10.  [update] is all or nothing, for every id and every patch.  When
    it fails, no table has changed, and the failure is one of three: the
    BadRequest of an empty patch, the NotFound of an update that matched
    no row, or an error of the store passed on as it is. *)
Theorem update_failure_changes_nothing (id : Z) (data : row) (d : DB)
  (e : error) :
  fst (Jobs.update id data d) = inl e ->
  same_tables d (snd (Jobs.update id data d))
  /\ ((data = [] /\ e = BadRequestError "No data")
      \/ e = NotFoundError ("No company: " ++ string_of_Z id)
      \/ exists m, e = StoreError m).
Proof.
  unfold Jobs.update, sqlForPartialUpdate.
  destruct data as [|kv data].
  - cbn. intros [= <-]. split; [repeat split | left; now split].
  - cbn [Obj.keys map List.length Nat.eqb]. unfold bind.
    destruct (db.query _ _ d) as [[err|rows] d'] eqn:Q; cbn [fst snd].
    + intros [= <-]. apply query_error in Q as (T & m & ->).
      split; [exact T | right; right; now exists m].
    + destruct rows as [|r rows]; cbn [first_row fst snd throw ret].
      * intros [= <-]. apply query_no_rows in Q.
        split; [exact Q | right; now left].
      * discriminate.
Qed.

Lemma update_failure_changes_nothing_witness :
  same_tables sample_db
    (snd (Jobs.update 1 [("salary", VStr "a lot")] sample_db))
  /\ (([("salary", VStr "a lot")] = []
       /\ StoreError "invalid value for column salary"
          = BadRequestError "No data")
      \/ StoreError "invalid value for column salary"
         = NotFoundError ("No company: " ++ string_of_Z 1)
      \/ exists m, StoreError "invalid value for column salary" = StoreError m).
Proof.
  apply (update_failure_changes_nothing 1 [("salary", VStr "a lot")] sample_db).
  vm_compute. reflexivity.
Defined.

(* ------------------------------------------------------------------------- *)
(** ** Integrity of the store *)
(* ------------------------------------------------------------------------- *)

Section Integrity.

Lemma has_job_app (js ks : list Job) (i : Z) :
  Sql.has_job (js ++ ks)%list i = Sql.has_job js i || Sql.has_job ks i.
Proof. unfold Sql.has_job. apply existsb_app. Qed.

Lemma distinct_push (js : list Job) (j : Job) :
  Sql.distinct_ids js = true ->
  Sql.has_job js (job_id j) = false ->
  Sql.distinct_ids (push js j) = true.
Proof.
  unfold push. induction js as [|k js IH]; cbn [Sql.distinct_ids app].
  - reflexivity.
  - intros D H. apply andb_true_iff in D as [Dk Djs].
    unfold Sql.has_job in H. cbn [existsb] in H.
    apply orb_false_iff in H as [Hk Hjs].
    rewrite has_job_app, IH by assumption.
    apply negb_true_iff in Dk. rewrite Dk.
    unfold Sql.has_job. cbn [existsb].
    rewrite Z.eqb_sym, Hk. reflexivity.
Qed.

Lemma has_job_filter (p : Job -> bool) (js : list Job) (i : Z) :
  Sql.has_job js i = false -> Sql.has_job (filter p js) i = false.
Proof.
  unfold Sql.has_job. induction js as [|k js IH]; cbn; [reflexivity|].
  intros H. apply orb_false_iff in H as [Hk Hjs].
  destruct (p k); cbn; [rewrite Hk|]; now apply IH.
Qed.

Lemma distinct_filter (p : Job -> bool) (js : list Job) :
  Sql.distinct_ids js = true -> Sql.distinct_ids (filter p js) = true.
Proof.
  induction js as [|k js IH]; cbn [Sql.distinct_ids filter]; [reflexivity|].
  intros D. apply andb_true_iff in D as [Dk Djs].
  destruct (p k); [|now apply IH].
  cbn [Sql.distinct_ids]. rewrite IH by assumption.
  apply negb_true_iff in Dk. now rewrite has_job_filter.
Qed.

Lemma has_job_ids (js ks : list Job) (i : Z) :
  map job_id js = map job_id ks -> Sql.has_job js i = Sql.has_job ks i.
Proof.
  unfold Sql.has_job. revert ks.
  induction js as [|j js IH]; intros [|k ks]; cbn; try discriminate;
    [reflexivity|].
  intros [= E1 E2]. now rewrite E1, (IH ks E2).
Qed.

Lemma distinct_ids_ids (js ks : list Job) :
  map job_id js = map job_id ks ->
  Sql.distinct_ids js = Sql.distinct_ids ks.
Proof.
  revert ks. induction js as [|j js IH]; intros [|k ks]; cbn; try discriminate;
    [reflexivity|].
  intros [= E1 E2]. now rewrite E1, (has_job_ids js ks _ E2), (IH ks E2).
Qed.

Lemma get_set_other (k k' : string) (v : value) (t : row) :
  String.eqb k k' = false -> Obj.get k (Obj.set k' v t) = Obj.get k t.
Proof.
  intros N. induction t as [|[k0 v0] t IH]; cbn.
  - now rewrite N.
  - destruct (String.eqb k' k0) eqn:E; cbn.
    + apply String.eqb_eq in E. subst k0. now rewrite N.
    + now rewrite IH.
Qed.

Lemma get_assign_other (k : string) (bs : list (string * value)) (t : row) :
  Sql.mem k (map fst bs) = false ->
  Obj.get k (Sql.assign bs t) = Obj.get k t.
Proof.
  unfold Sql.assign, Sql.mem. revert t.
  induction bs as [|[c v] bs IH]; intros t; cbn; [reflexivity|].
  intros H. apply orb_false_iff in H as [Hc Hbs].
  rewrite IH by assumption. now apply get_set_other.
Qed.

(** Rows rewritten by an UPDATE that does not assign [id] keep their ids;
    every row of the new table is an old row or a rewritten one. *)
Lemma rewrite_jobs_shape bc bs (js all hit : list Job) :
  Sql.rewrite_jobs bc bs js = inr (all, hit) ->
  (forall j, In j all -> In j js \/ In j hit)
  /\ (Sql.mem "id" (map fst bs) = false -> map job_id all = map job_id js).
Proof.
  revert all hit. induction js as [|j js IH]; intros all hit;
    cbn [Sql.rewrite_jobs].
  - intros [= <- <-]. split; [intros j []|reflexivity].
  - destruct (Sql.rewrite_jobs bc bs js) as [e|[all' hit']]; [discriminate|].
    destruct (IH all' hit' eq_refl) as [I M].
    destruct (Sql.holds bc (Sql.job_tuple j)).
    + destruct (Sql.job_of_tuple _) as [e|j'] eqn:E; [discriminate|].
      intros [= <- <-]. split.
      * intros k [->|K]; [right; now left|].
        destruct (I k K); [left; now right | right; now right].
      * intros N. cbn [map]. rewrite (M N). f_equal.
        apply job_of_tuple_fields in E as (Hid & _).
        rewrite (get_assign_other "id" bs _ N) in Hid.
        cbn [Obj.get Sql.job_tuple String.eqb Ascii.eqb Bool.eqb] in Hid.
        rewrite as_int_num in Hid. congruence.
    + intros [= <- <-]. split.
      * intros k [->|K]; [left; now left|].
        destruct (I k K); [left; now right | now right].
      * intros N. cbn [map]. now rewrite (M N).
Qed.

Lemma referential_alt (d : DB) :
  referential d = true
  <-> forall j, In j (jobs d) -> Sql.has_company d (job_company_handle j) = true.
Proof. unfold referential. apply forallb_forall. Qed.

(** A statement the store accepts leaves it consistent. *)
Lemma run_consistent (st : Sql.stmt) (params : list value) (d d' : DB)
  (rows : list row) :
  consistent d -> Sql.run st params d = inr (rows, d') -> consistent d'.
Proof.
  intros [D R].
  destruct st as [its tb cs o|tb cols vals ret|tb sets cs ret|tb cs ret];
    unfold Sql.run.
  - destruct (Sql.run_select _ _ _ _ _ _); [discriminate|].
    intros [= _ <-]. now split.
  - destruct (String.eqb tb "jobs"); [|discriminate].
    unfold Sql.run_insert.
    destruct (negb _); [discriminate|].
    destruct (negb _); [discriminate|].
    destruct (Sql.bind_sets _ _ _); [|discriminate].
    destruct (Sql.job_of_tuple _) as [e|j]; [discriminate|].
    destruct (Sql.has_company d (job_company_handle j)) eqn:C;
      [|discriminate].
    destruct (Sql.has_job (jobs d) (job_id j)) eqn:J; [discriminate|].
    cbn [negb]. intros [= _ <-]. split; cbn [jobs].
    + now apply distinct_push.
    + unfold referential, Sql.has_company, push in *. cbn [jobs companies].
      rewrite forallb_app, R. cbn [forallb]. now rewrite C.
  - destruct (String.eqb tb "jobs"); [|discriminate].
    unfold Sql.run_update.
    destruct (negb _); [discriminate|].
    destruct (Sql.bind_sets _ _ _) as [bs|]; [|discriminate].
    destruct (Sql.bind_conds _ _ _) as [bc|]; [|discriminate].
    destruct (Sql.rewrite_jobs bc bs (jobs d)) as [e|[all hit]] eqn:E;
      [discriminate|].
    apply rewrite_jobs_shape in E as [I M].
    destruct (forallb _ hit) eqn:H; [|discriminate]. cbn [negb].
    destruct (Sql.mem "id" (map fst bs)) eqn:K; cbn [andb].
    + destruct (Sql.distinct_ids all) eqn:A; [|discriminate]. cbn [negb].
      intros [= _ <-]. split; [exact A|].
      apply referential_alt. cbn [jobs]. intros j Hj.
      destruct (I j Hj) as [Hjs|Hh].
      * now apply (proj1 (referential_alt d) R).
      * exact (proj1 (forallb_forall _ hit) H j Hh).
    + intros [= _ <-]. split; cbn [jobs].
      * now rewrite (distinct_ids_ids all (jobs d) (M eq_refl)).
      * apply referential_alt. cbn [jobs]. intros j Hj.
        destruct (I j Hj) as [Hjs|Hh].
        -- now apply (proj1 (referential_alt d) R).
        -- exact (proj1 (forallb_forall _ hit) H j Hh).
  - destruct (String.eqb tb "jobs"); [|discriminate].
    unfold Sql.run_delete.
    destruct (negb _); [discriminate|].
    destruct (Sql.bind_conds _ _ _) as [bc|]; [|discriminate].
    intros [= _ <-]. split; cbn [jobs].
    + now apply distinct_filter.
    + apply referential_alt. cbn [jobs]. intros j Hj.
      apply filter_In in Hj as [Hj _].
      now apply (proj1 (referential_alt d) R).
Qed.

(** So does every call of [db.query], accepted or not. *)
Lemma query_consistent (text : string) (params : list value) (d : DB) :
  consistent d -> consistent (snd (db.query text params d)).
Proof.
  intros C. unfold db.query.
  assert (C1 : consistent (db.sent text params d)) by exact C.
  destruct (Sql.parse_text text) as [st|]; [|exact C1].
  destruct (Sql.run st params _) as [m|[rows d2]] eqn:E; [exact C1|].
  exact (run_consistent _ _ _ _ _ C1 E).
Qed.

End Integrity.

(** X11.  The five operations keep the store consistent, on every input:
    starting from a store whose job ids are unique and whose jobs all name
    an existing company, each of [create], [findAll], [get], [update] and
    [remove] leaves such a store, whether it returns or fails. *)
Theorem operations_keep_store_consistent (d : DB) :
  consistent d ->
  (forall data, consistent (snd (Jobs.create data d)))
  /\ (forall f, consistent (snd (Jobs.findAll f d)))
  /\ (forall id, consistent (snd (Jobs.get id d)))
  /\ (forall id data, consistent (snd (Jobs.update id data d)))
  /\ (forall id, consistent (snd (Jobs.remove id d))).
Proof.
  intros C. split; [|split; [|split; [|split]]].
  - intros data. unfold Jobs.create, bind.
    pose proof (query_consistent Jobs.create_sql (create_params data) d C) as Q.
    unfold create_params in Q.
    destruct (db.query Jobs.create_sql _ d) as [[e|rows] d']; exact Q.
  - intros f. rewrite findAll_run. destruct (Jobs.negative _); exact C.
  - intros id. destruct (get_keeps_tables id d) as (Hj & Hc & _).
    destruct C as [D R]. split; [now rewrite Hj|].
    unfold referential, Sql.has_company in *. now rewrite Hj, Hc.
  - intros id data. unfold Jobs.update.
    destruct (sqlForPartialUpdate data []) as [e|[sc vs]]; [exact C|].
    unfold bind.
    pose proof (query_consistent
                  (Jobs.update_sql sc
                     ("$" ++ string_of_nat (Datatypes.length vs + 1)))
                  (push vs (num id)) d C) as Q.
    destruct (db.query _ _ d) as [[e|rows] d']; [exact Q|].
    destruct (first_row rows); exact Q.
  - intros id. rewrite remove_run. cbn [snd]. destruct C as [D R]. split.
    + unfold after_remove; cbn [jobs]. now apply distinct_filter.
    + apply referential_alt. unfold after_remove; cbn [jobs]. intros j Hj.
      apply filter_In in Hj as [Hj _].
      now apply (proj1 (referential_alt d) R).
Qed.

Lemma operations_keep_store_consistent_witness :
  (forall data, consistent (snd (Jobs.create data sample_db)))
  /\ (forall f, consistent (snd (Jobs.findAll f sample_db)))
  /\ (forall id, consistent (snd (Jobs.get id sample_db)))
  /\ (forall id data, consistent (snd (Jobs.update id data sample_db)))
  /\ (forall id, consistent (snd (Jobs.remove id sample_db))).
Proof.
  apply (operations_keep_store_consistent sample_db).
  split; reflexivity.
Defined.

(* ------------------------------------------------------------------------- *)
(** ** create and findAll, further *)
(* ------------------------------------------------------------------------- *)

Section CreateOthers.

Lemma find_job_push_other (js : list Job) (j : Job) (id' : Z) :
  id' <> job_id j -> find_job id' (push js j) = find_job id' js.
Proof.
  intros N. unfold find_job, push.
  induction js as [|k js IH]; cbn.
  - destruct (job_id j =? id')%Z eqn:E; [|reflexivity].
    apply Z.eqb_eq in E. congruence.
  - destruct (job_id k =? id')%Z; [reflexivity | exact IH].
Qed.

End CreateOthers.

(** X12.  [create] leaves the existing jobs alone: for every payload,
    whether [create] returns or fails, [get] of any id other than the next
    serial answers afterwards what it answered before. *)
Theorem create_keeps_other_jobs (data : row) (d : DB) (id' : Z) :
  id' <> next_id d ->
  fst (Jobs.get id' (snd (Jobs.create data d))) = fst (Jobs.get id' d).
Proof.
  intros N. unfold Jobs.create, bind. fold (create_params data).
  destruct (insert_run data d) as [(m & Q)|(j & Q & I & _)];
    rewrite Q; cbn [snd].
  - apply get_same_tables. apply same_tables_sent.
  - apply get_same_lookup; [|reflexivity].
    unfold after_create; cbn [jobs].
    apply find_job_push_other. congruence.
Qed.

Lemma create_keeps_other_jobs_witness :
  fst (Jobs.get 1 (snd (Jobs.create (payload "x" None None "acme") sample_db)))
  = fst (Jobs.get 1 sample_db).
Proof.
  apply (create_keeps_other_jobs (payload "x" None None "acme") sample_db 1).
  discriminate.
Defined.

(** X13.  The guard of [findAll] is strict.  When [minSalary] is absent,
    zero or positive, exactly one statement is sent: the SELECT, the WHERE
    clause, ORDER BY title, with the parameters of the conditions.  The
    WHERE clause is left out exactly when there is no title, no minSalary
    and [hasEquity] is not true. *)
Theorem findAll_sends_one_statement (f : SearchFilters) (d : DB) :
  (forall m, minSalary f = Some m -> (0 <= m)%Q) ->
  log (snd (Jobs.findAll f d))
  = push (log d)
      ((Jobs.findAll_select ++ Jobs.where_clause (snd (Jobs.conditions f)))
       ++ " ORDER BY title",
       fst (Jobs.conditions f))
  /\ (Jobs.where_clause (snd (Jobs.conditions f)) = EmptyString
      <-> title f = None /\ minSalary f = None /\ hasEquity f <> Some true).
Proof.
  intros G. split.
  - rewrite findAll_run.
    assert (N : Jobs.negative (minSalary f) = false).
    { destruct (minSalary f) as [m|] eqn:E; [|reflexivity].
      destruct (Jobs.negative (Some m)) eqn:B; [|reflexivity].
      apply negative_spec in B. specialize (G m eq_refl).
      exfalso. exact (Qlt_not_le _ _ B G). }
    rewrite N. reflexivity.
  - clear G. destruct f as [[t|] [m|] [[|]|]]; cbn; split;
      try discriminate;
      try (intros (A & B & C); try discriminate A; try discriminate B;
           exfalso; apply C; reflexivity);
      intros _; repeat split; discriminate.
Qed.

Lemma findAll_sends_one_statement_witness :
  log (snd (Jobs.findAll (mkFilters None (Some (0 # 1)%Q) None) sample_db))
  = push (log sample_db)
      ((Jobs.findAll_select
        ++ Jobs.where_clause
             (snd (Jobs.conditions (mkFilters None (Some (0 # 1)%Q) None))))
       ++ " ORDER BY title",
       fst (Jobs.conditions (mkFilters None (Some (0 # 1)%Q) None)))
  /\ (Jobs.where_clause
        (snd (Jobs.conditions (mkFilters None (Some (0 # 1)%Q) None)))
      = EmptyString
      <-> title (mkFilters None (Some (0 # 1)%Q) None) = None
          /\ minSalary (mkFilters None (Some (0 # 1)%Q) None) = None
          /\ hasEquity (mkFilters None (Some (0 # 1)%Q) None) <> Some true).
Proof.
  apply (findAll_sends_one_statement
           (mkFilters None (Some (0 # 1)%Q) None) sample_db).
  intros m [= <-]. discriminate.
Defined.
